(** * The issue-to-pull-request workflow of [scripts/actions/issue-pr.ts]

    A shallow embedding of the action that turns a "new-challenge" issue
    into a pull request, and the properties of its specification.

    - JavaScript strings are sequences of UTF-16 code units ([jsstring]).
    - The three regular expressions of the script are embedded with
      backtracking combinators that try the alternatives in the order the
      JavaScript engine does.
    - The REST calls are operations of a state-and-exception monad over a
      model of the repository; every call is recorded in a trace.
    - The helpers imported from other modules (js-yaml, limax, the
      playground and badge builders, the locale table) are parameters.
    - A REST call answers; a failing request, which the script lets
      escape, is not part of the model.  The lines that [core.info] writes
      to the log of the run are left out. *)

From Stdlib Require Import String Ascii List NArith ZArith Bool Lia DecimalString.
From Stdlib Require Import DecimalPos DecimalZ.
Import ListNotations.

Set Implicit Arguments.
Set Warnings "-register-all".

(** ** JavaScript strings *)

Module JS.

(** A string is the list of its UTF-16 code units. *)
Definition jsstring := list N.

(** An ASCII literal of the script, as code units. *)
Definition u16 (s : string) : jsstring :=
  map N_of_ascii (list_ascii_of_string s).

Fixpoint jseqb (a b : jsstring) : bool :=
  match a, b with
  | [], [] => true
  | x :: a', y :: b' => N.eqb x y && jseqb a' b'
  | _, _ => false
  end.

(** [Number.prototype.toString] on an integer below [2^53] in magnitude,
    which a Number holds exactly and prints with all its digits: the
    numbers of issues and pull requests, the identifiers of users and the
    seconds of a date are such. *)
Definition num_to_string (z : Z) : jsstring :=
  u16 (NilZero.string_of_int (Z.to_int z)).

(** The Number nearest to a positive integer, ties to the even
    significand of 53 bits; [2^1024] and beyond stand for [Infinity]. *)
Definition nearest_double (n : Z) : Z :=
  let q := (Z.log2 n - 52)%Z in
  if (q <=? 0)%Z then n
  else
    let m := Z.shiftr n q in
    let r := Z.land n (Z.ones q) in
    let half := Z.shiftl 1 (q - 1) in
    let m' := if (r <? half)%Z then m
              else if (half <? r)%Z then (m + 1)%Z
              else if Z.even m then m else (m + 1)%Z in
    Z.shiftl m' q.

(** [v] is read back as the Number [x]. *)
Definition reads_as (x v : Z) : bool :=
  ((0 <? v) && (nearest_double v =? x))%Z.

(** The integer with the fewest significant digits that is read back as
    [x], and the nearest to [x] among those: the one with the most zeros
    at its end, at most [j] of them. *)
Fixpoint shortest (j : nat) (x : Z) : Z :=
  let p := (10 ^ Z.of_nat j)%Z in
  let lo := (x / p * p)%Z in
  let hi := (lo + p)%Z in
  let next := match j with O => x | S j' => shortest j' x end in
  match reads_as x lo, reads_as x hi with
  | true, true =>
      if (x - lo <? hi - x)%Z then lo
      else if (hi - x <? x - lo)%Z then hi
      else if Z.even (x / p) then lo else hi
  | true, false => lo
  | false, true => hi
  | false, false => next
  end.

Fixpoint drop_zeros (rev_digits : jsstring) : jsstring :=
  match rev_digits with
  | c :: s' => if N.eqb c 48 then drop_zeros s' else rev_digits
  | [] => []
  end.

(** [Number::toString] (radix 10) on the Number nearest to an integer:
    all the digits below [2^53]; from there on the shortest digits that
    are read back as the same Number, then zeros up to 21 digits in all,
    and the exponent form beyond. *)
Definition Number_toString (n : Z) : jsstring :=
  if (Z.abs n <? 2 ^ 53)%Z then num_to_string n
  else
    let sign := if (n <? 0)%Z then u16 "-" else [] in
    let x := nearest_double (Z.abs n) in
    if (2 ^ 1024 <=? x)%Z then sign ++ u16 "Infinity"
    else
      let digits := num_to_string (shortest (length (num_to_string x)) x) in
      if (length digits <=? 21)%nat then sign ++ digits
      else
        match rev (drop_zeros (rev digits)) with
        | [] => sign ++ digits
        | d :: more =>
            sign ++ d :: match more with
                         | [] => []
                         | _ :: _ => u16 "." ++ more
                         end
            ++ u16 "e+" ++ num_to_string (Z.of_nat (length digits) - 1)
        end.

(** [WhiteSpace] and [LineTerminator] code units: what [trim] removes. *)
Definition is_ws (c : N) : bool :=
  existsb (N.eqb c)
    [9; 10; 11; 12; 13; 32; 160; 5760; 8232; 8233; 8239; 8287; 12288; 65279]%N
  || (N.leb 8192 c && N.leb c 8202).

(** [LineTerminator] code units: what [.] does not match. *)
Definition is_line_terminator (c : N) : bool :=
  existsb (N.eqb c) [10; 13; 8232; 8233]%N.

Fixpoint trim_start (s : jsstring) : jsstring :=
  match s with
  | [] => []
  | c :: s' => if is_ws c then trim_start s' else s
  end.

Definition trim_end (s : jsstring) : jsstring :=
  rev (trim_start (rev s)).

(** [String.prototype.trim]. *)
Definition trim (s : jsstring) : jsstring :=
  trim_end (trim_start s).

(** [s.startsWith(p)], returning the rest of [s] after [p]. *)
Fixpoint lit (p s : jsstring) : option jsstring :=
  match p with
  | [] => Some s
  | a :: p' =>
      match s with
      | [] => None
      | b :: s' => if N.eqb a b then lit p' s' else None
      end
  end.

Definition startsWith (s p : jsstring) : bool :=
  match lit p s with Some _ => true | None => false end.

(** ** Regular expressions

    A matcher is run at one position and yields its result when the rest
    of the pattern matches there. *)

(** [[\s\S]*?] followed by the continuation [k]: the lazy quantifier tries
    the continuation before it consumes one more code unit.  The consumed
    text is returned with the result of the continuation. *)
Fixpoint lazy_any (R : Type) (k : jsstring -> option R) (s : jsstring)
  : option (jsstring * R) :=
  match k s with
  | Some r => Some ([], r)
  | None =>
      match s with
      | [] => None
      | c :: s' =>
          match lazy_any k s' with
          | Some (pre, r) => Some (c :: pre, r)
          | None => None
          end
      end
  end.

(** [RegExp.prototype.exec] without the [g] and [y] flags: the pattern is
    tried at index 0, 1, 2, ... and the first success is the match. *)
Fixpoint exec (R : Type) (m : jsstring -> option R) (s : jsstring) : option R :=
  match m s with
  | Some r => Some r
  | None =>
      match s with
      | [] => None
      | _ :: s' => exec m s'
      end
  end.

(** [s.replace(pat, rep)] with a string pattern: the first occurrence. *)
Fixpoint replace_first (pat rep s : jsstring) : jsstring :=
  match lit pat s with
  | Some rest => rep ++ rest
  | None =>
      match s with
      | [] => []
      | c :: s' => c :: replace_first pat rep s'
      end
  end.

End JS.
Export JS.

Coercion u16 : string >-> jsstring.

Open Scope string_scope.
Open Scope list_scope.
Open Scope Z_scope.

(** ** JavaScript values

    What [YAML.safeLoad] can return, and what the script does with it:
    a truthiness test, property reads and writes, and conversion to a
    string inside a template literal.  Numbers are the integers: [JNum z]
    is the Number nearest to [z], which is [z] itself below [2^53]; the
    numbers with a fraction, [NaN], the infinities and the dates that a
    document can hold are left out.  An object is the list of its own properties in
    insertion order, the order in which [YAML.safeDump] writes them; it is
    a plain object, with the methods of [Object.prototype]. *)

Inductive jsval :=
| JUndefined
| JNull
| JBool (b : bool)
| JNum (z : Z)
| JStr (s : jsstring)
| JArr (l : list jsval)
| JObj (m : list (jsstring * jsval)).

(** [!!v] *)
Definition truthy (v : jsval) : bool :=
  match v with
  | JUndefined | JNull => false
  | JBool b => b
  | JNum z => negb (Z.eqb z 0)
  | JStr s => match s with [] => false | _ => true end
  | JArr _ | JObj _ => true
  end.

(** [!!s] for [s : string | null] *)
Definition truthy_str (s : option jsstring) : bool :=
  match s with
  | Some (_ :: _) => true
  | _ => false
  end.

(** [s || ''] for [s : string | null] *)
Definition or_empty (s : option jsstring) : jsstring :=
  match s with
  | Some s => s
  | None => []
  end.

(** [`${s}`] for [s : string | null] *)
Definition nullable_to_string (s : option jsstring) : jsstring :=
  match s with
  | Some s => s
  | None => u16 "null"
  end.

Fixpoint lookup (k : jsstring) (m : list (jsstring * jsval)) : option jsval :=
  match m with
  | [] => None
  | (k', v) :: m' => if jseqb k' k then Some v else lookup k m'
  end.

(** Writing a property keeps its place when the object has it already and
    appends it otherwise. *)
Fixpoint assign (k : jsstring) (v : jsval) (m : list (jsstring * jsval))
  : list (jsstring * jsval) :=
  match m with
  | [] => [(k, v)]
  | (k', v') :: m' =>
      if jseqb k' k then (k', v) :: m' else (k', v') :: assign k v m'
  end.

(** [v.k] for one of the keys [author], [title], [difficulty], on a value
    that is neither [undefined] nor [null]: only objects have them. *)
Definition get_prop (v : jsval) (k : jsstring) : jsval :=
  match v with
  | JObj m => match lookup k m with Some x => x | None => JUndefined end
  | _ => JUndefined
  end.

(** [`${v}`] *)
Fixpoint to_string (v : jsval) : jsstring :=
  match v with
  | JUndefined => u16 "undefined"
  | JNull => u16 "null"
  | JBool true => u16 "true"
  | JBool false => u16 "false"
  | JNum z => Number_toString z
  | JStr s => s
  | JArr l =>
      (fix join (l : list jsval) : jsstring :=
         match l with
         | [] => []
         | x :: l' =>
             let e := match x with
                      | JUndefined | JNull => []
                      | _ => to_string x
                      end in
             match l' with
             | [] => e
             | _ :: _ => e ++ u16 "," ++ join l'
             end
         end) l
  | JObj _ => u16 "[object Object]"
  end.


(** ** The title, before it is slugged *)

(** [.replace(/\./g, '-')] *)
Definition replace_dots (s : jsstring) : jsstring :=
  map (fun c => if N.eqb c 46 then 45%N else c) s.

(** [.*>] at the start of [s]: the number of code units up to and with the
    last [>] of the line, if the line has one.  The greedy [.*] runs to the
    end of the line and backs off to the last [>]. *)
Fixpoint close_tag (s : jsstring) : option nat :=
  match s with
  | [] => None
  | c :: s' =>
      if is_line_terminator c then None
      else match close_tag s' with
           | Some n => Some (S n)
           | None => if N.eqb c 62 then Some 1%nat else None
           end
  end.

(** [.replace(/<.*>/g, '')], with [skip] code units of a match still to be
    dropped; the search resumes where a match ended. *)
Fixpoint strip_tags_from (skip : nat) (s : jsstring) : jsstring :=
  match s with
  | [] => []
  | c :: s' =>
      match skip with
      | S n => strip_tags_from n s'
      | O =>
          if N.eqb c 60 then
            match close_tag s' with
            | Some n => strip_tags_from n s'
            | None => c :: strip_tags_from 0 s'
            end
          else c :: strip_tags_from 0 s'
      end
  end.

Definition strip_tags (s : jsstring) : jsstring := strip_tags_from 0 s.

(** ** The section extractors *)

(** A pattern [A[\s\S]*?B([\s\S]*?)C] of three literals, at one position;
    the result is group 1. *)
Definition pattern3 (A B C : jsstring) (s : jsstring) : option jsstring :=
  match lit A s with
  | None => None
  | Some s1 =>
      match lazy_any (fun s2 =>
                        match lit B s2 with
                        | None => None
                        | Some s3 => lazy_any (lit C) s3
                        end) s1 with
      | Some (_, (group1, _)) => Some group1
      | None => None
      end
  end.

(** A pattern [A([\s\S]*?)C] of two literals, at one position. *)
Definition pattern2 (A C : jsstring) (s : jsstring) : option jsstring :=
  match lit A s with
  | None => None
  | Some s1 =>
      match lazy_any (lit C) s1 with
      | Some (group1, _) => Some group1
      | None => None
      end
  end.

(** The characters that do not stand for themselves in a pattern. *)
Definition is_syntax_character (c : N) : bool :=
  existsb (N.eqb c) [94; 36; 92; 46; 42; 43; 63; 40; 41; 91; 93; 123; 125; 124]%N.

Definition literal (s : jsstring) : bool :=
  forallb (fun c => negb (is_syntax_character c)) s.

(** [new RegExp(`## ${title}[\\s\\S]*?\`\`\`${lang}([\\s\\S]*?)\`\`\``)]
    for a [title] and a [lang] that are [literal], as the headings of
    [Messages] and the tags [yaml] and [ts] are. *)
Definition code_block_at (title lang : jsstring) : jsstring -> option jsstring :=
  pattern3 (u16 "## " ++ title) (u16 "```" ++ lang) (u16 "```").

Definition getCodeBlock (text title lang : jsstring) : option jsstring :=
  match exec (code_block_at title lang) text with
  | Some ((_ :: _) as group1) => Some (trim group1)
  | _ => None
  end.

(** [new RegExp(`<!--${key}-start-->([\\s\\S]*?)<!--${key}-end-->`)] for a
    [literal] key. *)
Definition comment_range_at (key : jsstring) : jsstring -> option jsstring :=
  pattern2 (u16 "<!--" ++ key ++ u16 "-start-->")
           (u16 "<!--" ++ key ++ u16 "-end-->").

Definition getCommentRange (text key : jsstring) : option jsstring :=
  match exec (comment_range_at key) text with
  | Some ((_ :: _) as group1) => Some (trim group1)
  | _ => None
  end.


(** ** The repository and the REST calls *)

Record user := {
  user_id : Z;
  user_login : jsstring;
  user_name : option jsstring         (* [name: string | null] *)
}.

Record pull := {
  pull_number : Z;
  pull_login : jsstring;              (* [user.login] *)
  pull_title : jsstring;
  pull_head : jsstring;
  pull_open : bool
}.

Record comment := {
  comment_id : Z;
  comment_issue : Z;
  comment_login : jsstring;           (* [user.login] *)
  comment_body : jsstring
}.

(** The argument of [PushCommit]. *)
Record push := {
  push_base : jsstring;
  push_head : jsstring;
  push_files : list (jsstring * jsstring);
  push_commit : jsstring;
  push_author_name : option jsstring;
  push_author_email : jsstring;
  push_fresh : bool
}.

(** The calls the script makes, with the arguments that vary.  The owner
    and the name of the repository are the same in every call. *)
Module Call.
Inductive call :=
| UsersGetByUsername (username : jsstring)
| PullsList
| PushCommit (p : push)
| PullsCreate (base head title body : jsstring) (labels : list jsstring)
| IssuesListComments (issue_number : Z)
| IssuesUpdateComment (comment_id : Z) (body : jsstring)
| IssuesCreateComment (issue_number : Z) (body : jsstring).
End Call.
(** The account the workflow token acts as. *)
Definition bot : jsstring := u16 "github-actions[bot]".

Record world := {
  users : list user;
  pulls : list pull;
  comments : list comment;
  next_number : Z;                    (* the next pull or comment number *)
  clock : nat -> Z;                   (* successive readings, in ms *)
  ticks : nat;
  calls : list Call.call                   (* oldest first *)
}.

Inductive exn := TypeError.

Inductive result (A : Type) :=
| Ok (a : A)
| Throw (e : exn).
Arguments Throw {A} e.

(** An asynchronous computation that is awaited at once: a state
    transformer that returns or throws. *)
Definition M (A : Type) := world -> result A * world.

Definition ret (A : Type) (a : A) : M A := fun w => (Ok a, w).

Definition throw (A : Type) (e : exn) : M A := fun w => (Throw e, w).
Arguments throw {A} e.

Definition bind (A B : Type) (c : M A) (k : A -> M B) : M B :=
  fun w =>
    match c w with
    | (Ok a, w') => k a w'
    | (Throw e, w') => (Throw e, w')
    end.

Notation "x <- c ;; k" := (bind c (fun x => k))
  (at level 61, c at next level, right associativity).
Notation "c ;;; k" := (bind c (fun _ => k))
  (at level 61, right associativity).

Definition record (c : Call.call) (w : world) : world :=
  {| users := users w; pulls := pulls w; comments := comments w;
     next_number := next_number w; clock := clock w; ticks := ticks w;
     calls := calls w ++ [c] |}.

(** The comment [id] with a new body. *)
Definition set_body (id : Z) (body : jsstring) (c : comment) : comment :=
  if Z.eqb (comment_id c) id
  then {| comment_id := comment_id c; comment_issue := comment_issue c;
          comment_login := comment_login c; comment_body := body |}
  else c.

Module github.

(** [users.getByUsername]: the [data] of the response, absent when the
    response carries no user record. *)
Definition users_getByUsername (username : jsstring) : M (option user) :=
  fun w =>
    (Ok (find (fun u => jseqb (user_login u) username) (users w)),
     record (Call.UsersGetByUsername username) w).

(** [pulls.list] with [state: 'open']. *)
Definition pulls_list : M (list pull) :=
  fun w => (Ok (filter pull_open (pulls w)), record Call.PullsList w).

(** [pulls.create]: the new pull request is open and authored by the
    account of the token. *)
Definition pulls_create (base head title body : jsstring)
    (labels : list jsstring) : M (option pull) :=
  fun w =>
    let pr := {| pull_number := next_number w; pull_login := bot;
                 pull_title := title; pull_head := head;
                 pull_open := true |} in
    let w' := record (Call.PullsCreate base head title body labels) w in
    (Ok (Some pr),
     {| users := users w'; pulls := pulls w' ++ [pr]; comments := comments w';
        next_number := next_number w' + 1; clock := clock w';
        ticks := ticks w'; calls := calls w' |}).

Definition issues_listComments (issue_number : Z) : M (list comment) :=
  fun w =>
    (Ok (filter (fun c => Z.eqb (comment_issue c) issue_number) (comments w)),
     record (Call.IssuesListComments issue_number) w).

Definition issues_updateComment (id : Z) (body : jsstring) : M unit :=
  fun w =>
    let w' := record (Call.IssuesUpdateComment id body) w in
    (Ok tt,
     {| users := users w'; pulls := pulls w';
        comments := map (set_body id body) (comments w');
        next_number := next_number w'; clock := clock w';
        ticks := ticks w'; calls := calls w' |}).

(** [issues.createComment]: the new comment is authored by the account of
    the token. *)
Definition issues_createComment (issue_number : Z) (body : jsstring)
  : M unit :=
  fun w =>
    let c := {| comment_id := next_number w; comment_issue := issue_number;
                comment_login := bot; comment_body := body |} in
    let w' := record (Call.IssuesCreateComment issue_number body) w in
    (Ok tt,
     {| users := users w'; pulls := pulls w'; comments := comments w' ++ [c];
        next_number := next_number w' + 1; clock := clock w';
        ticks := ticks w'; calls := calls w' |}).

End github.

(** [PushCommit] of octokit-create-pull-request: one commit with all the
    files on the head branch. *)
Definition PushCommit (p : push) : M unit :=
  fun w => (Ok tt, record (Call.PushCommit p) w).

(** [+new Date()] *)
Definition Date_now : M Z :=
  fun w =>
    (Ok (clock w (ticks w)),
     {| users := users w; pulls := pulls w; comments := comments w;
        next_number := next_number w; clock := clock w;
        ticks := S (ticks w); calls := calls w |}).

(** [Math.round(ms / 1000)]: to the nearest integer, halves upwards. *)
Definition Math_round_div_1000 (ms : Z) : Z := (ms + 500) / 1000.

(** ** The event *)

Record issue := {
  issue_labels : list (option jsstring);  (* [i && i.name] of each label *)
  issue_body : option jsstring;
  issue_user_login : jsstring
}.

Record context := {
  payload_issue : option issue;
  issue_number : Z
}.

Inductive locale := en | zh_CN.

Definition locale_tag (l : locale) : jsstring :=
  match l with
  | en => u16 "en"
  | zh_CN => u16 "zh-CN"
  end.

Record messages := {
  info : jsstring;
  template : jsstring;
  tests : jsstring;
  issue_reply : jsstring;
  issue_update_reply : jsstring;
  issue_invalid_reply : jsstring
}.

Definition Messages (l : locale) : messages :=
  match l with
  | en =>
      {| info := u16 "Info";
         template := u16 "Template";
         tests := u16 "Test Cases";
         issue_reply := u16 "#{0} - Pull Request created.";
         issue_update_reply := u16 "#{0} - Pull Request updated.";
         issue_invalid_reply :=
           u16 "Failed to parse the issue, please follow the template." |}
  | zh_CN =>
      {| info := [22522; 26412; 20449; 24687]%N;
         template := [39064; 30446; 27169; 29256]%N;
         tests := [21028; 39064; 27979; 35797]%N;
         issue_reply := u16 "#{0} - PR " ++ [24050; 29983; 25104]%N;
         issue_update_reply := u16 "#{0} - PR " ++ [24050; 26356; 26032]%N;
         issue_invalid_reply :=
           u16 "Issue " ++
           [26684; 24335; 19981; 27491; 30830; 65292; 35831; 25353; 29031;
            20381; 29031; 27169; 29256; 20462; 27491]%N |}
  end.

(** [labels.includes(x)] *)
Definition includes (labels : list jsstring) (x : jsstring) : bool :=
  existsb (jseqb x) labels.

(** [(issue.labels || []).map(i => i && i.name).filter(Boolean)] *)
Fixpoint label_names (l : list (option jsstring)) : list jsstring :=
  match l with
  | [] => []
  | Some ((_ :: _) as n) :: l' => n :: label_names l'
  | _ :: l' => label_names l'
  end.

(** ** The action *)

Definition lift (A : Type) (r : result A) : M A :=
  match r with
  | Ok a => ret a
  | Throw e => throw e
  end.

(** [updateComment(github, context, body)] *)
Definition updateComment (context : context) (body : jsstring) : M unit :=
  comments <- github.issues_listComments (issue_number context) ;;
  let existing_comment :=
    find (fun i => jseqb (comment_login i) bot) comments in
  match existing_comment with
  | Some c => github.issues_updateComment (comment_id c) body
  | None => github.issues_createComment (issue_number context) body
  end.

(** The pull request of the issue among [pulls] (lines 99-102). *)
Definition existing_pull (no : Z) (pulls : list pull) : option pull :=
  find (fun i =>
          jseqb (pull_login i) bot
          && startsWith (pull_title i) (u16 "#" ++ num_to_string no ++ u16 " "))
       pulls.

(** Lines 86-91.  The author object is new and is reached through
    [info.author] only, so the three assignments are one update of [info].
    On an array the property is set beside the elements, where nothing
    reads it before line 104 throws; a primitive takes no property. *)
Definition fill_author (info : jsval) (login : jsstring) (user : option user)
  : result jsval :=
  if truthy (get_prop info (u16 "author")) then Ok info
  else
    let author :=
      (u16 "github", JStr login)
      :: match user with
         | Some u =>
             [(u16 "name",
               match user_name u with Some n => JStr n | None => JNull end)]
         | None => []
         end in
    match info with
    | JObj m => Ok (JObj (assign (u16 "author") (JObj author) m))
    | JArr l => Ok (JArr l)
    | _ => Throw TypeError
    end.

Section Action.

(** [YAML.safeLoad]; [None] when it throws. *)
Variable safeLoad : jsstring -> option jsval.
Variable safeDump : jsval -> jsstring.
(** [slug(s, { tone: false })] of limax. *)
Variable slug : jsstring -> jsstring.
(** [toPlaygroundUrl(formatToCode({ no, difficulty, path, info, template,
    tests, readme }, locale))]. *)
Variable playground :
  Z -> jsval -> jsstring -> jsstring -> jsstring -> locale -> jsstring.
Variable toBadgeLink :
  jsstring -> jsstring -> jsstring -> jsstring -> jsstring -> jsstring.
Variable t : locale -> jsstring -> jsstring.
(** [new Date(ms).toISOString()]. *)
Variable toISOString : Z -> jsstring.

(** The template literal of line 104, for a title that is a string. *)
Definition directory (no : Z) (difficulty : jsval) (title : jsstring)
  : jsstring :=
  u16 "questions/" ++ num_to_string no ++ u16 "-" ++ to_string difficulty
  ++ u16 "-" ++ slug (strip_tags (replace_dots title)).

(** Line 104; [info.title.replace] throws unless the title is a string. *)
Definition dir_of (no : Z) (info : jsval) : result jsstring :=
  match get_prop info (u16 "title") with
  | JStr title => Ok (directory no (get_prop info (u16 "difficulty")) title)
  | _ => Throw TypeError
  end.

Definition getTimestampBadge : M jsstring :=
  d1 <- Date_now ;;
  d2 <- Date_now ;;
  ret (u16 "![" ++ toISOString d1 ++ u16 "](https://img.shields.io/date/"
       ++ num_to_string (Math_round_div_1000 d2)
       ++ u16 "?color=green&label=)").

(** Lines 141-144. *)
Definition createMessageBody (locale : locale) (playgroundBadge : jsstring)
    (prNumber : Z) : M jsstring :=
  badge <- getTimestampBadge ;;
  ret (replace_first (u16 "{0}") (num_to_string prNumber)
         (issue_update_reply (Messages locale))
       ++ [10; 10]%N ++ badge ++ u16 "  "
       ++ playgroundBadge).

Definition files_of (locale : locale) (dir : jsstring) (info : jsval)
    (question template tests : option jsstring)
  : list (jsstring * jsstring) :=
  let nl := [10]%N in
  [ (match locale with
     | en => dir ++ u16 "/info.yml"
     | _ => dir ++ u16 "/info." ++ locale_tag locale ++ u16 ".yml"
     end, safeDump info ++ nl);
    (match locale with
     | en => dir ++ u16 "/README.md"
     | _ => dir ++ u16 "/README." ++ locale_tag locale ++ u16 ".md"
     end, nullable_to_string question ++ nl);
    (dir ++ u16 "/template.ts", nullable_to_string template ++ nl);
    (dir ++ u16 "/test-cases.ts", nullable_to_string tests ++ nl) ].

(** The argument of [PushCommit] (lines 107-126). *)
Definition commit_of (locale : locale) (no : Z) (info : jsval)
    (dir : jsstring) (user : user) (question template tests : option jsstring)
    (fresh : bool) : push :=
  {| push_base := u16 "master";
     push_head := u16 "pulls/" ++ num_to_string no;
     push_files := files_of locale dir info question template tests;
     push_commit :=
       u16 "feat(question): add #" ++ num_to_string no ++ u16 " - "
       ++ to_string (get_prop info (u16 "title"));
     push_author_name := user_name user;
     push_author_email :=
       num_to_string (user_id user) ++ u16 "+" ++ user_login user
       ++ u16 "@users.noreply.github.com";       (* [userEmail], line 105 *)
     push_fresh := fresh |}.

(** [playgroundBadge] (lines 128-140). *)
Definition playgroundBadge_of (locale : locale) (no : Z) (info : jsval)
    (question template tests : option jsstring) : jsstring :=
  let playgroundURL :=
    playground no info (nullable_to_string template)
      (nullable_to_string tests) (nullable_to_string question) locale in
  toBadgeLink playgroundURL (u16 "")
    (t locale (u16 "badge.preview-playground")) (u16 "3178c6")
    (u16 "?logo=typescript").

(** The title and the body of the new pull request (lines 162-163). *)
Definition pull_title_of (no : Z) (info : jsval) : jsstring :=
  u16 "#" ++ num_to_string no ++ u16 " - "
  ++ to_string (get_prop info (u16 "title")).

Definition pull_body_of (no : Z) : jsstring :=
  u16 "This is an auto-generated PR that auto reflect on #"
  ++ num_to_string no ++ u16 ", please go to #" ++ num_to_string no
  ++ u16 " for discussion or making changes." ++ [10; 10]%N
  ++ u16 "Closes #" ++ num_to_string no.

(** Lines 83-177: what the action does once the issue has passed the
    check of line 74. *)
Definition publish (context : context) (issue : issue) (locale : locale)
    (info : jsval) (question template tests : option jsstring) : M unit :=
  let no := issue_number context in
  user <- github.users_getByUsername (issue_user_login issue) ;;
  info <- lift (fill_author info (issue_user_login issue) user) ;;
  pulls <- github.pulls_list ;;
  let existing_pull := existing_pull no pulls in
  dir <- lift (dir_of no info) ;;
  match user with
  | None => throw TypeError          (* line 105: [user.id] *)
  | Some user =>
      PushCommit
        (commit_of locale no info dir user question template tests
           match existing_pull with Some _ => false | None => true end)
      ;;;
      let playgroundBadge :=
        playgroundBadge_of locale no info question template tests in
      match existing_pull with
      | Some p =>
          body <- createMessageBody locale playgroundBadge (pull_number p) ;;
          updateComment context body
      | None =>
          pr <- github.pulls_create (u16 "master")
                  (u16 "pulls/" ++ num_to_string no)
                  (pull_title_of no info) (pull_body_of no)
                  [u16 "auto-generated"] ;;
          match pr with
          | Some pr =>
              body <- createMessageBody locale playgroundBadge
                        (pull_number pr) ;;
              updateComment context body
          | None => ret tt
          end
      end
  end.

(** The four sections of the issue body (lines 45-58). *)
Record parsed := {
  p_info : jsval;
  p_template : option jsstring;
  p_tests : option jsstring;
  p_question : option jsstring
}.

Definition parse (locale : locale) (body : jsstring) : parsed :=
  let infoRaw := getCodeBlock body (info (Messages locale)) (u16 "yaml") in
  {| p_info :=
       match safeLoad (or_empty infoRaw) with
       | Some v => v
       | None => JNull                (* [catch { info = null }] *)
       end;
     p_template := getCodeBlock body (template (Messages locale)) (u16 "ts");
     p_tests := getCodeBlock body (tests (Messages locale)) (u16 "ts");
     p_question := getCommentRange body (u16 "question") |}.

(** The condition of line 74. *)
Definition invalid (p : parsed) : bool :=
  negb (truthy_str (p_question p)) || negb (truthy_str (p_template p))
  || negb (truthy_str (p_tests p)) || negb (truthy (p_info p)).

Definition action (context : context) : M unit :=
  match payload_issue context with
  | None => ret tt
  | Some issue =>
      let labels := label_names (issue_labels issue) in
      if includes labels (u16 "new-challenge") then
        let locale :=
          if includes labels (u16 "zh-CN") then zh_CN else en in
        let body := or_empty (issue_body issue) in
        let p := parse locale body in
        if invalid p then
          updateComment context (issue_invalid_reply (Messages locale))
        else
          publish context issue locale (p_info p) (p_question p)
            (p_template p) (p_tests p)
      else ret tt
  end.

End Action.


(** ** The matches of a pattern

    [A[\s\S]*?B([\s\S]*?)C] matches a text at each way of writing the text
    as [pre A mid B g C post].  The first match is the least one for the
    order "leftmost start, then shortest [mid], then shortest [g]". *)

Definition match3 (A B C text pre mid g post : jsstring) : Prop :=
  text = pre ++ A ++ mid ++ B ++ g ++ C ++ post.

Definition first3 (A B C text pre mid g post : jsstring) : Prop :=
  match3 A B C text pre mid g post /\
  forall pre' mid' g' post',
    match3 A B C text pre' mid' g' post' ->
    (length pre < length pre' \/
     (length pre = length pre' /\
      (length mid < length mid' \/
       (length mid = length mid' /\ length g <= length g'))))%nat.

Definition match2 (A C text pre g post : jsstring) : Prop :=
  text = pre ++ A ++ g ++ C ++ post.

Definition first2 (A C text pre g post : jsstring) : Prop :=
  match2 A C text pre g post /\
  forall pre' g' post',
    match2 A C text pre' g' post' ->
    (length pre < length pre' \/
     (length pre = length pre' /\ length g <= length g'))%nat.

(** The text starts with white space. *)
Definition untrimmed_head (s : jsstring) : bool :=
  match s with
  | [] => false
  | c :: _ => is_ws c
  end.

(** A section as the issue template lays it out: the heading, the opening
    fence, the content and the closing fence on lines of their own. *)
Definition section_of (title lang content : jsstring) : jsstring :=
  u16 "## " ++ title ++ [10]%N ++ u16 "```" ++ lang ++ [10]%N
  ++ content ++ [10]%N ++ u16 "```".

(** The lines of a block: what follows the line of the opening fence,
    where a reader of Markdown sees the content of the block. *)
Fixpoint block_lines (group1 : jsstring) : jsstring :=
  match group1 with
  | [] => []
  | c :: s' => if is_line_terminator c then s' else block_lines s'
  end.

(** The closing fence does not occur in a text. *)
Definition fence_free (s : jsstring) : Prop :=
  forall x y, s <> x ++ u16 "```" ++ y.


(** The comments of an issue that the bot wrote. *)
Definition automation_comments (no : Z) (w : world) : list comment :=
  filter (fun c => jseqb (comment_login c) bot)
         (filter (fun c => Z.eqb (comment_issue c) no) (comments w)).

(** The notifier, run once for each body of a list. *)
Definition notify_all (context : context) (bodies : list jsstring) (w : world)
  : world :=
  fold_left (fun w body => snd (updateComment context body w)) bodies w.

(** ** Stand-ins for the imported helpers

    Simple functions with the interface of the helpers the script imports,
    to run the action on examples. *)

Module Demo.

Definition lower (c : N) : N :=
  if (N.leb 65 c && N.leb c 90)%bool then (c + 32)%N else c.

Definition alnum (c : N) : bool :=
  (N.leb 48 c && N.leb c 57) || (N.leb 97 c && N.leb c 122).

(** The runs of letters and digits of [s], lowercased and joined by
    hyphens; [sep] tells that a hyphen is due before the next one. *)
Fixpoint slug_from (started sep : bool) (s : jsstring) : jsstring :=
  match s with
  | [] => []
  | c :: s' =>
      if alnum (lower c) then
        (if (started && sep)%bool then [45%N] else [])
        ++ lower c :: slug_from true false s'
      else slug_from started true s'
  end.

(** A slug for ASCII titles: lowercase, hyphenated. *)
Definition slug (s : jsstring) : jsstring := slug_from false false s.

Fixpoint split_on (sep : N) (cur : jsstring) (s : jsstring) : list jsstring :=
  match s with
  | [] => [rev cur]
  | c :: s' =>
      if N.eqb c sep then rev cur :: split_on sep [] s'
      else split_on sep (c :: cur) s'
  end.

(** [key: value] on one line. *)
Fixpoint key_value (key : jsstring) (s : jsstring)
  : option (jsstring * jsval) :=
  match s with
  | [] => None
  | c :: s' =>
      if N.eqb c 58 then
        Some (rev key, match trim s' with [] => JNull | v => JStr v end)
      else key_value (c :: key) s'
  end.

Fixpoint key_values (lines : list jsstring)
  : option (list (jsstring * jsval)) :=
  match lines with
  | [] => Some []
  | l :: lines' =>
      match key_value [] l, key_values lines' with
      | Some kv, Some m => Some (kv :: m)
      | _, _ => None
      end
  end.

(** A reader of flat YAML mappings of strings; the empty document is
    [undefined], as in js-yaml. *)
Definition safeLoad (s : jsstring) : option jsval :=
  match s with
  | [] => Some JUndefined
  | _ =>
      match key_values (split_on 10 [] s) with
      | Some m => Some (JObj m)
      | None => None
      end
  end.

Definition safeDump (v : jsval) : jsstring :=
  match v with
  | JObj m =>
      flat_map (fun kv => fst kv ++ u16 ": " ++ to_string (snd kv) ++ [10%N]) m
  | _ => to_string v
  end.

Definition playground (no : Z) (info : jsval)
    (template tests question : jsstring) (l : locale) : jsstring :=
  u16 "https://tsch.js.org/" ++ num_to_string no ++ u16 "/play".

Definition toBadgeLink (url alt label color query : jsstring) : jsstring :=
  u16 "[![" ++ label ++ u16 "](https://img.shields.io/badge/-" ++ color
  ++ query ++ u16 ")](" ++ url ++ u16 ")".

Definition t (l : locale) (key : jsstring) : jsstring := key.

Definition toISOString (ms : Z) : jsstring := num_to_string ms.

Definition action := action safeLoad safeDump slug playground toBadgeLink t
                       toISOString.

(** An issue in the layout of the template. *)
Definition body_of (yaml question template tests : jsstring) : jsstring :=
  section_of (u16 "Info") (u16 "yaml") yaml ++ [10; 10]%N
  ++ u16 "<!--question-start-->" ++ [10]%N ++ question ++ [10]%N
  ++ u16 "<!--question-end-->" ++ [10; 10]%N
  ++ section_of (u16 "Template") (u16 "ts") template ++ [10; 10]%N
  ++ section_of (u16 "Test Cases") (u16 "ts") tests.

Definition pick_yaml : jsstring :=
  u16 "difficulty: easy" ++ [10]%N ++ u16 "title: Pick<T>".

Definition pick_body : jsstring :=
  body_of pick_yaml (u16 "Implement Pick.")
    (u16 "type MyPick<T, K> = any") (u16 "type cases = []").

(** The same issue with a template block of two spaces. *)
Definition blank_template_body : jsstring :=
  body_of pick_yaml (u16 "Implement Pick.") (u16 "  ")
    (u16 "type cases = []").

Definition octocat : user :=
  {| user_id := 583231; user_login := u16 "octocat";
     user_name := Some (u16 "The Octocat") |}.

Definition issue_with (body : jsstring) : issue :=
  {| issue_labels := [Some (u16 "new-challenge")];
     issue_body := Some body;
     issue_user_login := u16 "octocat" |}.

Definition context_with (body : jsstring) : context :=
  {| payload_issue := Some (issue_with body); issue_number := 42 |}.

(** A repository with the user and nothing else. *)
Definition fresh : world :=
  {| users := [octocat]; pulls := []; comments := []; next_number := 43;
     clock := fun _ => 1600000000499; ticks := 0; calls := [] |}.

(** The same repository, where the user lookup finds no record. *)
Definition no_profile : world :=
  {| users := []; pulls := []; comments := []; next_number := 43;
     clock := fun _ => 1600000000499; ticks := 0; calls := [] |}.



(** Metadata with an author that is the empty string. *)
Definition empty_author : jsval :=
  JObj [(u16 "title", JStr (u16 "Pick")); (u16 "author", JStr [])].

End Demo.

(** ** Notions used in the statements *)

(** The user record that the lookup of line 83 finds. *)
Definition found_user (issue : issue) (w : world) : option user :=
  find (fun u => jseqb (user_login u) (issue_user_login issue)) (users w).

(** The locale of an issue (line 43). *)
Definition locale_of (issue : issue) : locale :=
  if includes (label_names (issue_labels issue)) (u16 "zh-CN")
  then zh_CN else en.

(** The event carries an issue with the label that starts the workflow. *)
Definition triggers (context : context) (issue : issue) : Prop :=
  payload_issue context = Some issue
  /\ includes (label_names (issue_labels issue)) (u16 "new-challenge") = true.

(** The arguments of the calls of [PushCommit] in a trace, in order. *)
Definition pushed (l : list Call.call) : list push :=
  flat_map (fun c => match c with Call.PushCommit p => [p] | _ => [] end) l.

(** The call posts [body] on issue [no]: it edits a comment or adds one. *)
Definition posts (no : Z) (body : jsstring) (c : Call.call) : Prop :=
  (exists id, c = Call.IssuesUpdateComment id body)
  \/ c = Call.IssuesCreateComment no body.

(** The pull request of issue [no] that the bot opened. *)
Definition automation_pull (no : Z) (p : pull) : Prop :=
  pull_login p = bot
  /\ exists rest, pull_title p = u16 "#" ++ num_to_string no ++ u16 " " ++ rest.

(** The world after two readings of the clock. *)
Definition after_badge (w : world) : world :=
  {| users := users w; pulls := pulls w; comments := comments w;
     next_number := next_number w; clock := clock w;
     ticks := S (S (ticks w)); calls := calls w |}.

(** ** The shapes of a run

    The calls of one run of the action, case by case. *)

Section Shapes.

Variable safeLoad : jsstring -> option jsval.
Variable safeDump : jsval -> jsstring.
Variable slug : jsstring -> jsstring.

(** What the action parses from the issue. *)
Definition parsed_of (issue : issue) : parsed :=
  parse safeLoad (locale_of issue) (or_empty (issue_body issue)).

(** The event starts the workflow and the issue passes line 74. *)
Definition accepted (context : context) (issue : issue) : Prop :=
  triggers context issue /\ invalid (parsed_of issue) = false.

Inductive shape (context : context) (w : world) : list Call.call -> Prop :=
| shape_idle :
    (forall issue, ~ triggers context issue) ->
    shape context w []
| shape_invalid issue c :
    triggers context issue ->
    invalid (parsed_of issue) = true ->
    posts (issue_number context)
      (issue_invalid_reply (Messages (locale_of issue))) c ->
    shape context w [Call.IssuesListComments (issue_number context); c]
| shape_throws_author issue e :
    accepted context issue ->
    fill_author (p_info (parsed_of issue)) (issue_user_login issue)
      (found_user issue w) = Throw e ->
    shape context w [Call.UsersGetByUsername (issue_user_login issue)]
| shape_throws_dir issue info' e :
    accepted context issue ->
    fill_author (p_info (parsed_of issue)) (issue_user_login issue)
      (found_user issue w) = Ok info' ->
    dir_of slug (issue_number context) info' = Throw e ->
    shape context w [Call.UsersGetByUsername (issue_user_login issue);
                     Call.PullsList]
| shape_throws_user issue info' dir :
    accepted context issue ->
    fill_author (p_info (parsed_of issue)) (issue_user_login issue)
      (found_user issue w) = Ok info' ->
    dir_of slug (issue_number context) info' = Ok dir ->
    found_user issue w = None ->
    shape context w [Call.UsersGetByUsername (issue_user_login issue);
                     Call.PullsList]
| shape_updates issue info' dir u p body c :
    accepted context issue ->
    fill_author (p_info (parsed_of issue)) (issue_user_login issue)
      (found_user issue w) = Ok info' ->
    dir_of slug (issue_number context) info' = Ok dir ->
    found_user issue w = Some u ->
    existing_pull (issue_number context) (filter pull_open (pulls w))
    = Some p ->
    posts (issue_number context) body c ->
    shape context w
      [Call.UsersGetByUsername (issue_user_login issue);
       Call.PullsList;
       Call.PushCommit
         (commit_of safeDump (locale_of issue) (issue_number context) info'
            dir u (p_question (parsed_of issue))
            (p_template (parsed_of issue)) (p_tests (parsed_of issue)) false);
       Call.IssuesListComments (issue_number context); c]
| shape_creates issue info' dir u body c :
    accepted context issue ->
    fill_author (p_info (parsed_of issue)) (issue_user_login issue)
      (found_user issue w) = Ok info' ->
    dir_of slug (issue_number context) info' = Ok dir ->
    found_user issue w = Some u ->
    existing_pull (issue_number context) (filter pull_open (pulls w))
    = None ->
    posts (issue_number context) body c ->
    shape context w
      [Call.UsersGetByUsername (issue_user_login issue);
       Call.PullsList;
       Call.PushCommit
         (commit_of safeDump (locale_of issue) (issue_number context) info'
            dir u (p_question (parsed_of issue))
            (p_template (parsed_of issue)) (p_tests (parsed_of issue)) true);
       Call.PullsCreate (u16 "master")
         (u16 "pulls/" ++ num_to_string (issue_number context))
         (pull_title_of (issue_number context) info')
         (pull_body_of (issue_number context)) [u16 "auto-generated"];
       Call.IssuesListComments (issue_number context); c].

End Shapes.

(** ** Further notions used in the statements *)

(** The names of the two files that depend on the locale (lines 114-115). *)
Definition info_file (l : locale) : jsstring :=
  match l with
  | en => u16 "info.yml"
  | zh_CN => u16 "info.zh-CN.yml"
  end.

Definition readme_file (l : locale) : jsstring :=
  match l with
  | en => u16 "README.md"
  | zh_CN => u16 "README.zh-CN.md"
  end.

(** The event carries an issue with a label of the given name. *)
Definition labelled (context : context) (name : jsstring) : Prop :=
  exists issue,
    payload_issue context = Some issue
    /\ In (Some name) (issue_labels issue).

(** [s.indexOf(pat)], as an option. *)
Definition index_of (pat s : jsstring) : option nat :=
  match lazy_any (lit pat) s with
  | Some (pre, _) => Some (length pre)
  | None => None
  end.

(** The replacement of [replace_dots] on one code unit. *)
Definition undot (c : N) : N := if N.eqb c 46 then 45%N else c.

(** ** The repository over runs *)

(** Two states with the same users, pull requests and comments, and the
    same next number; the trace and the clock may differ. *)
Definition same_repository (w w' : world) : Prop :=
  users w' = users w /\ pulls w' = pulls w /\ comments w' = comments w
  /\ next_number w' = next_number w.

(** The open pull requests of issue [no] that the bot opened. *)
Definition automation_pulls (no : Z) (w : world) : list pull :=
  filter (fun i =>
            jseqb (pull_login i) bot
            && startsWith (pull_title i)
                 (u16 "#" ++ num_to_string no ++ u16 " "))
         (filter pull_open (pulls w)).

(** The comments have distinct identifiers, all below the next number. *)
Definition unique_ids (w : world) : Prop :=
  NoDup (map comment_id (comments w))
  /\ Forall (fun c => comment_id c < next_number w) (comments w).

(** What a run leaves behind: the repository as it was; or a post on the
    issue; or a new pull request, made when none was found, and a post. *)
Inductive outcome (context : context) (w : world) : world -> Prop :=
| outcome_quiet w' :
    same_repository w w' -> outcome context w w'
| outcome_notified body w0 :
    same_repository w w0 ->
    outcome context w (snd (updateComment context body w0))
| outcome_created body info' w0 w1 :
    same_repository w w0 ->
    existing_pull (issue_number context) (filter pull_open (pulls w)) = None ->
    same_repository
      (snd (github.pulls_create (u16 "master")
              (u16 "pulls/" ++ num_to_string (issue_number context))
              (pull_title_of (issue_number context) info')
              (pull_body_of (issue_number context))
              [u16 "auto-generated"] w0)) w1 ->
    outcome context w (snd (updateComment context body w1)).

Section Events.

Variable safeLoad : jsstring -> option jsval.
Variable safeDump : jsval -> jsstring.
Variable slug : jsstring -> jsstring.
Variable playground :
  Z -> jsval -> jsstring -> jsstring -> jsstring -> locale -> jsstring.
Variable toBadgeLink :
  jsstring -> jsstring -> jsstring -> jsstring -> jsstring -> jsstring.
Variable t : locale -> jsstring -> jsstring.
Variable toISOString : Z -> jsstring.

(** The repository after the action has run on each event of a list, a
    run that throws leaving its calls behind like the others. *)
Definition run_all (events : list context) (w : world) : world :=
  fold_left
    (fun w context =>
       snd (action safeLoad safeDump slug playground toBadgeLink t
              toISOString context w))
    events w.

End Events.

(** ** More examples *)

Module Sample.

(** The issue of [Demo.pick_body] without a title in its metadata. *)
Definition untitled_body : jsstring :=
  Demo.body_of (u16 "difficulty: easy") (u16 "Implement Pick.")
    (u16 "type MyPick<T, K> = any") (u16 "type cases = []").

(** The same issue with nothing between the question markers but the line
    feeds. *)
Definition unasked_body : jsstring :=
  Demo.body_of Demo.pick_yaml [] (u16 "type MyPick<T, K> = any")
    (u16 "type cases = []").

(** The same issue with a template block of three spaces, opened by a
    fence with a word after the language tag. *)
Definition twoslash_body : jsstring :=
  section_of (u16 "Info") (u16 "yaml") Demo.pick_yaml ++ [10; 10]%N
  ++ u16 "<!--question-start-->" ++ [10]%N ++ u16 "Implement Pick."
  ++ [10]%N ++ u16 "<!--question-end-->" ++ [10; 10]%N
  ++ section_of (u16 "Template") (u16 "ts twoslash") (u16 "   ")
  ++ [10; 10]%N
  ++ section_of (u16 "Test Cases") (u16 "ts") (u16 "type cases = []").

Definition pick : context := Demo.context_with Demo.pick_body.

Definition alice_comment : comment :=
  {| comment_id := 7; comment_issue := 42; comment_login := u16 "alice";
     comment_body := u16 "Nice one." |}.

(** A repository with a comment of a user on issue 42. *)
Definition discussed : world :=
  {| users := [Demo.octocat]; pulls := []; comments := [alice_comment];
     next_number := 43; clock := fun _ => 1600000000499; ticks := 0;
     calls := [] |}.

(** The calls of the action on [Demo.pick_body], in [Demo.fresh]. *)
Definition pick_run : list Call.call :=
  calls (snd (Demo.action pick Demo.fresh)).

Definition pick_commit : push :=
  match nth_error pick_run 2 with
  | Some (Call.PushCommit p) => p
  | _ => {| push_base := []; push_head := []; push_files := [];
            push_commit := []; push_author_name := None;
            push_author_email := []; push_fresh := false |}
  end.

End Sample.
(** * Properties *)

Unset Implicit Arguments.

(** ** Sanity checks of the embedding *)

Example getCodeBlock_first_and_lazy :
  getCodeBlock (u16 "intro ## Template  ```ts  type A = 1  ``` ```ts x```")
    (u16 "Template") (u16 "ts")
  = Some (u16 "type A = 1").
Proof. reflexivity. Qed.

Example getCodeBlock_needs_heading :
  getCodeBlock (u16 "```ts type A = 1 ```") (u16 "Template") (u16 "ts") = None.
Proof. reflexivity. Qed.

Example getCommentRange_first_and_lazy :
  getCommentRange
    (u16 "<!--question-start--> a <!--question-end--> b <!--question-end-->")
    (u16 "question")
  = Some (u16 "a").
Proof. reflexivity. Qed.

Example strip_tags_greedy :
  strip_tags (replace_dots (u16 "a.b<c>d<e>f<g")) = u16 "a-bf<g".
Proof. reflexivity. Qed.

Example Math_round_halves_up :
  map Math_round_div_1000 [1499; 1500; -1500; -1501]%Z = [1; 2; -1; -2]%Z.
Proof. reflexivity. Qed.

Example to_string_of_array :
  to_string (JArr [JNum 0; JNull; JStr (u16 "a"); JNum (-7)]) = u16 "0,,a,-7".
Proof. reflexivity. Qed.

(** The headings, the tags and the key that the script passes to the
    extractors stand for themselves in a pattern. *)
Lemma call_sites_literal l :
  literal (info (Messages l)) = true
  /\ literal (template (Messages l)) = true
  /\ literal (tests (Messages l)) = true
  /\ literal (u16 "yaml") = true /\ literal (u16 "ts") = true
  /\ literal (u16 "question") = true.
Proof. destruct l; repeat split. Qed.

(** ** Literals and lazy quantifiers *)

Section Matching.

Local Open Scope nat_scope.

Lemma app_eq_length (A : Type) (a b c d : list A) :
  a ++ b = c ++ d -> length a = length c -> a = c /\ b = d.
Proof.
  revert c; induction a as [|x a IH]; intros [|y c] H L; simpl in *;
    try discriminate.
  - split; [reflexivity | assumption].
  - injection H as -> H. injection L as L.
    destruct (IH c H L) as [-> ->]. split; reflexivity.
Qed.

Lemma lit_Some p s r : lit p s = Some r <-> s = p ++ r.
Proof.
  revert s; induction p as [|a p IH]; intros s; simpl.
  - split; [intros [= ->] | intros ->]; reflexivity.
  - destruct s as [|b s]; [split; discriminate|].
    destruct (N.eqb_spec a b) as [->|ne].
    + rewrite IH. split; [intros -> | intros [= ->]]; reflexivity.
    + split; [discriminate | intros [= e _]; congruence].
Qed.

Lemma lit_app p r : lit p (p ++ r) = Some r.
Proof. apply lit_Some; reflexivity. Qed.

Lemma lit_None p s : lit p s = None -> forall r, s <> p ++ r.
Proof.
  intros H r ->. rewrite lit_app in H. discriminate.
Qed.

Variable R : Type.
Variable k : jsstring -> option R.

Lemma lazy_any_Some s pre r :
  lazy_any k s = Some (pre, r) ->
  exists post,
    s = pre ++ post /\ k post = Some r /\
    forall pre' post',
      s = pre' ++ post' -> length pre' < length pre -> k post' = None.
Proof.
  revert pre; induction s as [|c s IH]; intros pre; simpl.
  - destruct (k []) eqn:E; [|discriminate].
    intros [= <- <-]. exists []. repeat split; auto.
    intros ? ? _ L; simpl in L; lia.
  - destruct (k (c :: s)) eqn:E.
    + intros [= <- <-]. exists (c :: s). repeat split; auto.
      intros ? ? _ L; simpl in L; lia.
    + destruct (lazy_any k s) as [[pre0 r0]|] eqn:E2; [|discriminate].
      intros [= <- <-].
      destruct (IH pre0 eq_refl) as (post & -> & Hk & Hmin).
      exists post. repeat split; auto.
      intros [|c' pre'] post' Heq Hlen; simpl in Heq.
      * subst post'. exact E.
      * injection Heq as -> Heq. apply (Hmin pre' post' Heq).
        simpl in Hlen. lia.
Qed.

Lemma lazy_any_None s :
  lazy_any k s = None -> forall pre post, s = pre ++ post -> k post = None.
Proof.
  induction s as [|c s IH]; simpl.
  - destruct (k []) eqn:E; [discriminate|].
    intros _ [|? ?] post H; simpl in H; [subst; exact E | discriminate].
  - destruct (k (c :: s)) eqn:E; [discriminate|].
    destruct (lazy_any k s) as [[pre0 r0]|] eqn:E2; [discriminate|].
    intros _ [|c' pre] post H; simpl in H.
    + subst; exact E.
    + injection H as -> H. exact (IH eq_refl pre post H).
Qed.

Lemma exec_lazy_any s :
  exec k s = match lazy_any k s with Some (_, r) => Some r | None => None end.
Proof.
  induction s as [|c s IH]; simpl.
  - destruct (k []); reflexivity.
  - destruct (k (c :: s)); [reflexivity|].
    rewrite IH. destruct (lazy_any k s) as [[? ?]|]; reflexivity.
Qed.

Lemma exec_Some s r :
  exec k s = Some r ->
  exists pre post,
    s = pre ++ post /\ k post = Some r /\
    forall pre' post',
      s = pre' ++ post' -> length pre' < length pre -> k post' = None.
Proof.
  rewrite exec_lazy_any.
  destruct (lazy_any k s) as [[pre r0]|] eqn:E; [|discriminate].
  intros [= ->]. destruct (lazy_any_Some _ _ _ E) as (post & H).
  exists pre, post. exact H.
Qed.

Lemma exec_None s :
  exec k s = None -> forall pre post, s = pre ++ post -> k post = None.
Proof.
  rewrite exec_lazy_any.
  destruct (lazy_any k s) as [[pre r0]|] eqn:E; [discriminate|].
  intros _. exact (lazy_any_None _ E).
Qed.

End Matching.

(** ** The first match of a pattern *)

Section FirstMatch.

Local Open Scope nat_scope.

Variables A B C : jsstring.

Lemma lazy_lit_complete g post :
  lazy_any (lit C) (g ++ C ++ post) <> None.
Proof.
  intros E. pose proof (lazy_any_None _ _ _ E g (C ++ post) eq_refl) as H.
  rewrite lit_app in H. discriminate.
Qed.

Lemma at3_complete mid g post :
  pattern3 A B C (A ++ mid ++ B ++ g ++ C ++ post) <> None.
Proof.
  unfold pattern3. rewrite lit_app.
  destruct (lazy_any _ (mid ++ B ++ g ++ C ++ post))
    as [[m [g0 r]]|] eqn:E; [discriminate|].
  pose proof (lazy_any_None _ _ _ E mid (B ++ g ++ C ++ post) eq_refl) as H.
  simpl in H. rewrite lit_app in H.
  exfalso. exact (lazy_lit_complete _ _ H).
Qed.

Lemma at2_complete g post : pattern2 A C (A ++ g ++ C ++ post) <> None.
Proof.
  unfold pattern2. rewrite lit_app.
  destruct (lazy_any (lit C) (g ++ C ++ post)) as [[g0 r]|] eqn:E;
    [discriminate|].
  exfalso. exact (lazy_lit_complete _ _ E).
Qed.

Lemma exec_at3_Some text g :
  exec (pattern3 A B C) text = Some g -> exists pre mid post, first3 A B C text pre mid g post.
Proof.
  intros H. destruct (exec_Some _ _ _ _ H) as (pre & s0 & -> & Hat & Hpre).
  unfold pattern3 in Hat.
  destruct (lit A s0) as [s1|] eqn:EA; [|discriminate].
  apply lit_Some in EA. subst s0.
  destruct (lazy_any _ s1) as [[mid [g0 rest]]|] eqn:EK; [|discriminate].
  injection Hat as ->.
  destruct (lazy_any_Some _ _ _ _ _ EK) as (s2 & -> & HB & Hmid).
  destruct (lit B s2) as [s3|] eqn:EB; [|discriminate].
  apply lit_Some in EB. subst s2.
  destruct (lazy_any_Some _ _ _ _ _ HB) as (s4 & -> & HC & Hg).
  apply lit_Some in HC. subst s4.
  exists pre, mid, rest. split; [reflexivity|].
  intros pre' mid' g' post' M. unfold match3 in M.
  destruct (Nat.lt_trichotomy (length pre) (length pre')) as [L|[L|L]];
    [left; exact L | right; split; [exact L|] | exfalso].
  - destruct (app_eq_length _ _ _ _ _ M L) as [<- M1].
    apply app_inv_head in M1.
    destruct (Nat.lt_trichotomy (length mid) (length mid')) as [L1|[L1|L1]];
      [left; exact L1 | right; split; [exact L1|] | exfalso].
    + destruct (app_eq_length _ _ _ _ _ M1 L1) as [<- M2].
      apply app_inv_head in M2.
      destruct (Nat.le_gt_cases (length g) (length g')) as [L2|L2];
        [exact L2 | exfalso].
      pose proof (Hg g' (C ++ post') M2 L2) as F.
      rewrite lit_app in F. discriminate.
    + pose proof (Hmid mid' (B ++ g' ++ C ++ post') M1 L1) as F.
      simpl in F. rewrite lit_app in F.
      exact (lazy_lit_complete _ _ F).
  - pose proof (Hpre pre' _ M L) as F.
    exact (at3_complete _ _ _ F).
Qed.

Lemma exec_at3_None text :
  exec (pattern3 A B C) text = None -> forall pre mid g post, ~ match3 A B C text pre mid g post.
Proof.
  intros H pre mid g post M.
  pose proof (exec_None _ _ _ H pre _ M) as F.
  exact (at3_complete _ _ _ F).
Qed.

Lemma exec_at2_Some text g :
  exec (pattern2 A C) text = Some g -> exists pre post, first2 A C text pre g post.
Proof.
  intros H. destruct (exec_Some _ _ _ _ H) as (pre & s0 & -> & Hat & Hpre).
  unfold pattern2 in Hat.
  destruct (lit A s0) as [s1|] eqn:EA; [|discriminate].
  apply lit_Some in EA. subst s0.
  destruct (lazy_any _ s1) as [[g0 rest]|] eqn:EK; [|discriminate].
  injection Hat as ->.
  destruct (lazy_any_Some _ _ _ _ _ EK) as (s4 & -> & HC & Hg).
  apply lit_Some in HC. subst s4.
  exists pre, rest. split; [reflexivity|].
  intros pre' g' post' M. unfold match2 in M.
  destruct (Nat.lt_trichotomy (length pre) (length pre')) as [L|[L|L]];
    [left; exact L | right; split; [exact L|] | exfalso].
  - destruct (app_eq_length _ _ _ _ _ M L) as [<- M1].
    apply app_inv_head in M1.
    destruct (Nat.le_gt_cases (length g) (length g')) as [L2|L2];
      [exact L2 | exfalso].
    pose proof (Hg g' (C ++ post') M1 L2) as F.
    rewrite lit_app in F. discriminate.
  - pose proof (Hpre pre' _ M L) as F.
    exact (at2_complete _ _ F).
Qed.

Lemma exec_at2_None text :
  exec (pattern2 A C) text = None -> forall pre g post, ~ match2 A C text pre g post.
Proof.
  intros H pre g post M.
  pose proof (exec_None _ _ _ H pre _ M) as F.
  exact (at2_complete _ _ F).
Qed.

Lemma first3_unique text pre mid g post pre' mid' g' post' :
  first3 A B C text pre mid g post -> first3 A B C text pre' mid' g' post' ->
  pre = pre' /\ mid = mid' /\ g = g' /\ post = post'.
Proof.
  intros [M F] [M' F'].
  assert (L : length pre = length pre' /\ length mid = length mid'
              /\ length g = length g').
  { specialize (F _ _ _ _ M'). specialize (F' _ _ _ _ M). lia. }
  destruct L as (L1 & L2 & L3).
  unfold match3 in M, M'. rewrite M in M'.
  destruct (app_eq_length _ _ _ _ _ M' L1) as [<- M1].
  apply app_inv_head in M1.
  destruct (app_eq_length _ _ _ _ _ M1 L2) as [<- M2].
  apply app_inv_head in M2.
  destruct (app_eq_length _ _ _ _ _ M2 L3) as [<- M3].
  apply app_inv_head in M3. subst. repeat split.
Qed.

Lemma first2_unique text pre g post pre' g' post' :
  first2 A C text pre g post -> first2 A C text pre' g' post' ->
  pre = pre' /\ g = g' /\ post = post'.
Proof.
  intros [M F] [M' F'].
  assert (L : length pre = length pre' /\ length g = length g').
  { specialize (F _ _ _ M'). specialize (F' _ _ _ M). lia. }
  destruct L as (L1 & L3).
  unfold match2 in M, M'. rewrite M in M'.
  destruct (app_eq_length _ _ _ _ _ M' L1) as [<- M1].
  apply app_inv_head in M1.
  destruct (app_eq_length _ _ _ _ _ M1 L3) as [<- M3].
  apply app_inv_head in M3. subst. repeat split.
Qed.

End FirstMatch.

(** ** Trimming *)

Section Trim.

Local Open Scope nat_scope.

Lemma trim_start_split s :
  exists w, s = w ++ trim_start s /\ forallb is_ws w = true.
Proof.
  induction s as [|c s (w & E & W)]; simpl.
  - exists []. split; reflexivity.
  - destruct (is_ws c) eqn:Ec.
    + exists (c :: w). simpl. rewrite Ec, W, <- E. split; reflexivity.
    + exists []. split; reflexivity.
Qed.

Lemma trim_start_head s : untrimmed_head (trim_start s) = false.
Proof.
  induction s as [|c s IH]; simpl; [reflexivity|].
  destruct (is_ws c) eqn:Ec; [exact IH | simpl; exact Ec].
Qed.

Lemma trim_start_fixed s : untrimmed_head s = false -> trim_start s = s.
Proof.
  destruct s as [|c s]; simpl; [reflexivity|]. intros ->. reflexivity.
Qed.

Lemma trim_start_ws w s :
  forallb is_ws w = true -> trim_start (w ++ s) = trim_start s.
Proof.
  induction w as [|c w IH]; simpl; [reflexivity|].
  intros H. apply andb_true_iff in H as [-> H]. exact (IH H).
Qed.

Lemma trim_start_blank w : forallb is_ws w = true -> trim_start w = [].
Proof.
  intros H. rewrite <- (app_nil_r w). rewrite (trim_start_ws _ _ H).
  reflexivity.
Qed.

Lemma trim_start_snoc a c :
  is_ws c = false -> trim_start (a ++ [c]) = trim_start a ++ [c].
Proof.
  intros Hc. induction a as [|x a IH]; simpl.
  - rewrite Hc. reflexivity.
  - destruct (is_ws x); [exact IH | reflexivity].
Qed.

Lemma trim_end_split s :
  exists w, s = trim_end s ++ w /\ forallb is_ws w = true.
Proof.
  unfold trim_end. destruct (trim_start_split (rev s)) as (w & E & W).
  exists (rev w). split.
  - rewrite <- rev_app_distr, <- E, rev_involutive. reflexivity.
  - rewrite forallb_forall in *. intros x Hx. apply W.
    apply in_rev. exact Hx.
Qed.

Lemma forallb_rev (f : N -> bool) l :
  forallb f l = true -> forallb f (rev l) = true.
Proof.
  rewrite !forallb_forall. intros H x Hx. apply H, in_rev. exact Hx.
Qed.

Lemma trim_end_ws s w :
  forallb is_ws w = true -> trim_end (s ++ w) = trim_end s.
Proof.
  intros H. unfold trim_end. rewrite rev_app_distr.
  rewrite (trim_start_ws _ _ (forallb_rev _ _ H)). reflexivity.
Qed.

Lemma trim_end_cons c r :
  is_ws c = false -> trim_end (c :: r) = c :: trim_end r.
Proof.
  intros Hc. unfold trim_end. simpl rev at 2.
  rewrite (trim_start_snoc _ _ Hc), rev_app_distr. reflexivity.
Qed.

Lemma trim_end_idem s : trim_end (trim_end s) = trim_end s.
Proof.
  unfold trim_end. rewrite rev_involutive.
  rewrite (trim_start_fixed _ (trim_start_head _)). reflexivity.
Qed.

Lemma trim_head s : untrimmed_head (trim s) = false.
Proof.
  unfold trim. pose proof (trim_start_head s) as H.
  destruct (trim_start s) as [|c r]; [reflexivity|].
  simpl in H. rewrite (trim_end_cons _ _ H). exact H.
Qed.

Lemma trim_split s :
  exists w1 w2,
    s = w1 ++ trim s ++ w2 /\
    forallb is_ws w1 = true /\ forallb is_ws w2 = true.
Proof.
  destruct (trim_start_split s) as (w1 & E1 & W1).
  destruct (trim_end_split (trim_start s)) as (w2 & E2 & W2).
  exists w1, w2. unfold trim. rewrite <- E2, <- E1. auto.
Qed.

(** Trimming a trimmed text again, with or without white space put
    around it, gives the trimmed text. *)
Lemma trim_pad w1 w2 s :
  forallb is_ws w1 = true -> forallb is_ws w2 = true ->
  trim (w1 ++ trim s ++ w2) = trim s.
Proof.
  intros W1 W2. unfold trim at 1. rewrite (trim_start_ws _ _ W1).
  pose proof (trim_head s) as H.
  destruct (trim s) as [|c r] eqn:E.
  - simpl. rewrite (trim_start_blank _ W2). reflexivity.
  - simpl in H. simpl app. simpl trim_start. rewrite H.
    change (c :: r ++ w2) with ((c :: r) ++ w2).
    rewrite (trim_end_ws _ _ W2). rewrite <- E. unfold trim.
    apply trim_end_idem.
Qed.

Lemma trim_idem s : trim (trim s) = trim s.
Proof.
  pose proof (trim_pad [] [] s eq_refl eq_refl) as H.
  simpl in H. rewrite app_nil_r in H. exact H.
Qed.

Lemma trim_blank s : forallb is_ws s = true -> trim s = [].
Proof.
  intros H. unfold trim. rewrite (trim_start_blank _ H). reflexivity.
Qed.

Lemma trim_nil_blank s : trim s = [] -> forallb is_ws s = true.
Proof.
  intros H. destruct (trim_split s) as (w1 & w2 & E & W1 & W2).
  rewrite H in E. rewrite E. rewrite forallb_app, W1. exact W2.
Qed.

End Trim.

(** ** The extractors *)

Section Extractors.

Local Open Scope nat_scope.

Lemma exec_pattern3_match A B C text pre mid g post :
  match3 A B C text pre mid g post -> exec (pattern3 A B C) text <> None.
Proof.
  intros M E. exact (exec_at3_None _ _ _ _ E _ _ _ _ M).
Qed.

Lemma first3_fence_free A B text pre mid g post :
  first3 A B (u16 "```") text pre mid g post -> fence_free g.
Proof.
  intros [M F] x y ->.
  assert (M' : match3 A B (u16 "```") text pre mid x
                 (y ++ u16 "```" ++ post)).
  { unfold match3 in *. rewrite M. rewrite <- !app_assoc. reflexivity. }
  specialize (F _ _ _ _ M'). rewrite !length_app in F. simpl in F. lia.
Qed.

Lemma fence_free_sub a s b : fence_free (a ++ s ++ b) -> fence_free s.
Proof.
  intros F x y ->. apply (F (a ++ x) (y ++ b)).
  rewrite <- !app_assoc. reflexivity.
Qed.

Lemma app_eq_prefix (T : Type) (a b c d : list T) :
  a ++ b = c ++ d -> length c <= length a ->
  exists l, a = c ++ l /\ d = l ++ b.
Proof.
  revert a; induction c as [|y c IH]; intros a H L; simpl in *.
  - exists a. split; [reflexivity | symmetry; exact H].
  - destruct a as [|x a]; simpl in *; [lia|].
    injection H as -> H. destruct (IH a H ltac:(lia)) as (l & -> & ->).
    exists l. split; reflexivity.
Qed.

(** In a section laid out by [section_of] around fence-free content, the
    first closing fence is the last line. *)
Lemma closing_fence_first out g' rest' :
  fence_free out ->
  [10%N] ++ out ++ [10%N] ++ u16 "```" = g' ++ u16 "```" ++ rest' ->
  length ([10%N] ++ out ++ [10%N]) <= length g'.
Proof.
  intros F E. rewrite !length_app. simpl length.
  destruct (Nat.le_gt_cases (1 + (length out + 1)) (length g')) as [L|L];
    [exact L | exfalso].
  destruct g' as [|c x]; [discriminate E|].
  simpl in E. injection E as <- E. simpl in L.
  destruct (app_eq_prefix _ _ _ _ _ E ltac:(lia)) as (l & -> & E2).
  destruct l as [|a [|b [|c l]]]; try discriminate E2.
  injection E2 as <- <- <- _. apply (F x l). reflexivity.
Qed.

Lemma lazy_lit_first C g rest :
  (forall g' rest', g ++ C ++ rest = g' ++ C ++ rest' ->
                    length g <= length g') ->
  lazy_any (lit C) (g ++ C ++ rest) = Some (g, rest).
Proof.
  intros F.
  destruct (lazy_any (lit C) (g ++ C ++ rest)) as [[g1 r1]|] eqn:E.
  - destruct (lazy_any_Some _ _ _ _ _ E) as (s & E1 & HC & Hmin).
    apply lit_Some in HC. subst s.
    assert (L : length g1 = length g).
    { pose proof (F _ _ E1).
      destruct (Nat.le_gt_cases (length g1) (length g)) as [L|L]; [lia|].
      pose proof (Hmin g (C ++ rest) eq_refl L) as X.
      rewrite lit_app in X. discriminate. }
    symmetry in E1. destruct (app_eq_length _ _ _ _ _ E1 L) as [-> E3].
    apply app_inv_head in E3. subst. reflexivity.
  - exfalso. exact (lazy_lit_complete _ _ _ E).
Qed.

Lemma lazy_any_here (R : Type) (k : jsstring -> option R) s r :
  k s = Some r -> lazy_any k s = Some ([], r).
Proof. intros H. destruct s; simpl; rewrite H; reflexivity. Qed.

Lemma lazy_any_skip (R : Type) (k : jsstring -> option R) c s :
  k (c :: s) = None ->
  lazy_any k (c :: s)
  = match lazy_any k s with
    | Some (pre, r) => Some (c :: pre, r)
    | None => None
    end.
Proof. intros H. simpl. rewrite H. reflexivity. Qed.

Lemma exec_here (R : Type) (m : jsstring -> option R) s r :
  m s = Some r -> exec m s = Some r.
Proof. intros H. destruct s; simpl; rewrite H; reflexivity. Qed.

Lemma pattern3_lines A b B C c g :
  c <> b ->
  (forall g' rest', g ++ C = g' ++ C ++ rest' -> length g <= length g') ->
  pattern3 A (b :: B) C (A ++ [c] ++ (b :: B) ++ g ++ C) = Some g.
Proof.
  intros Hc F. unfold pattern3. rewrite lit_app.
  change ([c] ++ (b :: B) ++ g ++ C) with (c :: (b :: B) ++ g ++ C).
  rewrite lazy_any_skip.
  2:{ simpl. destruct (N.eqb_spec b c); [congruence | reflexivity]. }
  rewrite (lazy_any_here (jsstring * jsstring) _ _ (g, [])); [reflexivity|].
  rewrite lit_app.
  pose proof (lazy_lit_first C g []) as X. rewrite app_nil_r in X.
  apply X. exact F.
Qed.

Lemma section_of_group1 title lang out :
  fence_free out ->
  exec (code_block_at title lang) (section_of title lang out)
  = Some ([10%N] ++ out ++ [10%N]).
Proof.
  intros F. apply exec_here. unfold section_of, code_block_at.
  change (u16 "```" ++ lang) with (96%N :: [96; 96]%N ++ lang).
  pose proof (pattern3_lines (u16 "## " ++ title) 96%N ([96; 96]%N ++ lang)
                (u16 "```") 10%N ([10%N] ++ out ++ [10%N])) as X.
  rewrite <- !app_assoc in X. apply X.
  - discriminate.
  - intros g' rest' E. try rewrite <- !app_assoc in E.
    exact (closing_fence_first out g' rest' F E).
Qed.

Lemma getCodeBlock_fence_free text title lang out :
  getCodeBlock text title lang = Some out -> fence_free out.
Proof.
  unfold getCodeBlock.
  destruct (exec (code_block_at title lang) text) as [[|c g]|] eqn:E;
    try discriminate.
  intros [= <-].
  destruct (exec_at3_Some _ _ _ _ _ E) as (pre & mid & post & F).
  apply first3_fence_free in F.
  destruct (trim_split (c :: g)) as (w1 & w2 & S & _).
  rewrite S in F. exact (fence_free_sub _ _ _ F).
Qed.

Lemma trim_length s : length (trim s) <= length s.
Proof.
  destruct (trim_split s) as (w1 & w2 & S & _).
  rewrite S at 2. rewrite !length_app. lia.
Qed.

End Extractors.

(** C6, as amended.  For a heading, a language tag and a key that stand for
    themselves in a pattern, each extractor returns the trimmed group of
    the first match: the match with the leftmost heading, then the nearest
    opening fence, then the nearest closing fence.  It returns null when
    the pattern has no match and when the group of the first match is
    empty; it has no other outcome. *)
Theorem extractors_first_lazy_trimmed text title lang key :
  literal title = true -> literal lang = true -> literal key = true ->
  match getCodeBlock text title lang with
  | Some r =>
      exists pre mid g post,
        first3 (u16 "## " ++ title) (u16 "```" ++ lang) (u16 "```")
          text pre mid g post
        /\ g <> [] /\ r = trim g
  | None =>
      (forall pre mid g post,
         ~ match3 (u16 "## " ++ title) (u16 "```" ++ lang) (u16 "```")
             text pre mid g post)
      \/ exists pre mid post,
           first3 (u16 "## " ++ title) (u16 "```" ++ lang) (u16 "```")
             text pre mid [] post
  end
  /\
  match getCommentRange text key with
  | Some r =>
      exists pre g post,
        first2 (u16 "<!--" ++ key ++ u16 "-start-->")
          (u16 "<!--" ++ key ++ u16 "-end-->") text pre g post
        /\ g <> [] /\ r = trim g
  | None =>
      (forall pre g post,
         ~ match2 (u16 "<!--" ++ key ++ u16 "-start-->")
             (u16 "<!--" ++ key ++ u16 "-end-->") text pre g post)
      \/ exists pre post,
           first2 (u16 "<!--" ++ key ++ u16 "-start-->")
             (u16 "<!--" ++ key ++ u16 "-end-->") text pre [] post
  end.
Proof.
  intros _ _ _. split.
  - unfold getCodeBlock, code_block_at.
    destruct (exec _ text) as [[|c g]|] eqn:E.
    + right. exact (exec_at3_Some _ _ _ _ _ E).
    + destruct (exec_at3_Some _ _ _ _ _ E) as (pre & mid & post & F).
      exists pre, mid, (c :: g), post. repeat split; try apply F.
      discriminate.
    + left. exact (exec_at3_None _ _ _ _ E).
  - unfold getCommentRange, comment_range_at.
    destruct (exec _ text) as [[|c g]|] eqn:E.
    + right. exact (exec_at2_Some _ _ _ _ E).
    + destruct (exec_at2_Some _ _ _ _ E) as (pre & post & F).
      exists pre, (c :: g), post. repeat split; try apply F.
      discriminate.
    + left. exact (exec_at2_None _ _ _ E).
Qed.

(** The first match of a first3 is the only one the engine can return. *)
Lemma getCodeBlock_of_first text title lang pre mid g post :
  first3 (u16 "## " ++ title) (u16 "```" ++ lang) (u16 "```")
    text pre mid g post ->
  getCodeBlock text title lang
  = match g with [] => None | _ :: _ => Some (trim g) end.
Proof.
  intros F. unfold getCodeBlock, code_block_at.
  destruct (exec _ text) as [g0|] eqn:E.
  - destruct (exec_at3_Some _ _ _ _ _ E) as (pre0 & mid0 & post0 & F0).
    destruct (first3_unique _ _ _ _ _ _ _ _ _ _ _ _ F0 F) as (_ & _ & -> & _).
    reflexivity.
  - exfalso. destruct F as [M _].
    exact (exec_at3_None _ _ _ _ E _ _ _ _ M).
Qed.

(** C9, as amended.  The text that [getCodeBlock] returns is unchanged by
    trimming it again, and extracting from the section written again
    around it (heading, opening fence, the text, closing fence) returns
    it; extracting from the bare text never does. *)
Theorem reextraction_of_rewritten_section text title lang out :
  getCodeBlock text title lang = Some out ->
  trim out = out
  /\ getCodeBlock (section_of title lang out) title lang = Some out
  /\ getCodeBlock out title lang <> Some out.
Proof.
  intros H. pose proof (getCodeBlock_fence_free _ _ _ _ H) as FF.
  assert (T : trim out = out).
  { unfold getCodeBlock in H.
    destruct (exec _ text) as [[|c g]|]; try discriminate.
    injection H as <-. apply trim_idem. }
  split; [exact T|]. split.
  - unfold getCodeBlock. rewrite (section_of_group1 _ _ _ FF).
    cbn [app]. f_equal.
    change (10%N :: out ++ [10%N]) with ([10%N] ++ out ++ [10%N]).
    rewrite <- T. rewrite trim_pad by reflexivity. reflexivity.
  - unfold getCodeBlock, code_block_at.
    destruct (exec _ out) as [[|c g]|] eqn:E; try discriminate.
    intros [= E2].
    destruct (exec_at3_Some _ _ _ _ _ E) as (pre & mid & post & [M _]).
    pose proof (trim_length (c :: g)) as L. rewrite E2 in L.
    unfold match3 in M. rewrite M in L at 1.
    rewrite !length_app in L. simpl in L. lia.
Qed.

(** ** The comment notifier *)

Section Notifier.

Local Open Scope nat_scope.

Lemma jseqb_eq a b : jseqb a b = true <-> a = b.
Proof.
  revert b; induction a as [|x a IH]; intros [|y b]; simpl;
    try (split; [discriminate | discriminate]); [tauto|].
  rewrite andb_true_iff, N.eqb_eq, IH.
  split; [intros [-> ->]; reflexivity | intros [= -> ->]; auto].
Qed.

Lemma jseqb_refl a : jseqb a a = true.
Proof. apply jseqb_eq. reflexivity. Qed.

Lemma find_filter (T : Type) (f : T -> bool) l :
  find f l = match filter f l with x :: _ => Some x | [] => None end.
Proof.
  induction l as [|x l IH]; simpl; [reflexivity|].
  destruct (f x); [reflexivity | exact IH].
Qed.

Lemma filter_map_same (T : Type) (f : T -> bool) (h : T -> T) l :
  (forall x, f (h x) = f x) -> filter f (map h l) = map h (filter f l).
Proof.
  intros H. induction l as [|x l IH]; simpl; [reflexivity|].
  rewrite H. destruct (f x); simpl; rewrite IH; reflexivity.
Qed.

Lemma set_body_issue id body c :
  comment_issue (set_body id body c) = comment_issue c.
Proof. unfold set_body. destruct (Z.eqb _ _); reflexivity. Qed.

Lemma set_body_login id body c :
  comment_login (set_body id body c) = comment_login c.
Proof. unfold set_body. destruct (Z.eqb _ _); reflexivity. Qed.

Lemma set_body_self body c :
  comment_body (set_body (comment_id c) body c) = body.
Proof. unfold set_body. rewrite Z.eqb_refl. reflexivity. Qed.

Lemma updateComment_found context body w c l :
  automation_comments (issue_number context) w = c :: l ->
  updateComment context body w
  = (Ok tt,
     {| users := users w; pulls := pulls w;
        comments := map (set_body (comment_id c) body) (comments w);
        next_number := next_number w; clock := clock w; ticks := ticks w;
        calls := calls w ++ [Call.IssuesListComments (issue_number context);
                             Call.IssuesUpdateComment (comment_id c) body] |}).
Proof.
  unfold automation_comments. intros H.
  unfold updateComment, bind, github.issues_listComments. simpl.
  rewrite find_filter, H.
  unfold github.issues_updateComment, record. simpl.
  rewrite <- app_assoc. reflexivity.
Qed.

Lemma updateComment_missing context body w :
  automation_comments (issue_number context) w = [] ->
  updateComment context body w
  = (Ok tt,
     {| users := users w; pulls := pulls w;
        comments :=
          comments w ++ [{| comment_id := next_number w;
                            comment_issue := issue_number context;
                            comment_login := bot; comment_body := body |}];
        next_number := (next_number w + 1)%Z; clock := clock w;
        ticks := ticks w;
        calls := calls w ++ [Call.IssuesListComments (issue_number context);
                             Call.IssuesCreateComment (issue_number context)
                               body] |}).
Proof.
  unfold automation_comments. intros H.
  unfold updateComment, bind, github.issues_listComments. simpl.
  rewrite find_filter, H.
  unfold github.issues_createComment, record. simpl.
  rewrite <- app_assoc. reflexivity.
Qed.

Lemma automation_comments_after context body w :
  automation_comments (issue_number context)
    (snd (updateComment context body w))
  = match automation_comments (issue_number context) w with
    | [] => [{| comment_id := next_number w;
                comment_issue := issue_number context;
                comment_login := bot; comment_body := body |}]
    | c :: l =>
        map (set_body (comment_id c) body)
          (automation_comments (issue_number context) w)
    end.
Proof.
  destruct (automation_comments (issue_number context) w) as [|c l] eqn:E.
  - rewrite (updateComment_missing _ _ _ E). unfold automation_comments in *.
    simpl. rewrite !filter_app, E. simpl.
    rewrite Z.eqb_refl. reflexivity.
  - rewrite (updateComment_found _ _ _ _ _ E). unfold automation_comments in *.
    simpl. rewrite !filter_map_same, E; [reflexivity | |].
    + intros x. rewrite set_body_login. reflexivity.
    + intros x. rewrite set_body_issue. reflexivity.
Qed.

Lemma automation_comments_count context body w :
  length (automation_comments (issue_number context)
            (snd (updateComment context body w)))
  = Nat.max 1 (length (automation_comments (issue_number context) w)).
Proof.
  rewrite automation_comments_after.
  destruct (automation_comments (issue_number context) w) as [|c l];
    [reflexivity|].
  rewrite length_map. simpl. reflexivity.
Qed.

Lemma notify_all_count context bodies w :
  length (automation_comments (issue_number context)
            (notify_all context bodies w))
  <= Nat.max 1 (length (automation_comments (issue_number context) w)).
Proof.
  unfold notify_all.
  revert w; induction bodies as [|b bodies IH]; intros w; cbn [fold_left].
  - lia.
  - specialize (IH (snd (updateComment context b w))).
    rewrite automation_comments_count in IH. lia.
Qed.

End Notifier.

(** C4.  The notifier returns, and it is an upsert: when the issue has a
    comment of the bot, the first one gets the new body where it stands,
    by one call of [updateComment], and no comment is added; otherwise one
    comment of the bot is added, by one call of [createComment].  Either
    way a comment of the bot with the body is there afterwards, and the
    number of comments of the bot becomes the larger of one and what it
    was: after any number of runs it is at most one, on an issue that had
    at most one. *)
Theorem comment_upsert context body w :
  let no := issue_number context in
  let w' := snd (updateComment context body w) in
  fst (updateComment context body w) = Ok tt
  /\ match automation_comments no w with
     | c :: _ =>
         comments w' = map (set_body (comment_id c) body) (comments w)
         /\ length (comments w') = length (comments w)
         /\ calls w' = calls w ++ [Call.IssuesListComments no;
                                   Call.IssuesUpdateComment (comment_id c) body]
     | [] =>
         comments w'
         = comments w ++ [{| comment_id := next_number w; comment_issue := no;
                             comment_login := bot; comment_body := body |}]
         /\ calls w' = calls w ++ [Call.IssuesListComments no;
                                   Call.IssuesCreateComment no body]
     end
  /\ (exists c, In c (automation_comments no w') /\ comment_body c = body)
  /\ length (automation_comments no w')
     = Nat.max 1 (length (automation_comments no w))
  /\ forall bodies,
       (length (automation_comments no (notify_all context bodies w))
        <= Nat.max 1 (length (automation_comments no w)))%nat.
Proof.
  intros no w'. subst no.
  pose proof (automation_comments_after context body w) as After.
  pose proof (notify_all_count context) as All.
  fold w' in After.
  destruct (automation_comments (issue_number context) w) as [|c l] eqn:E.
  - pose proof (updateComment_missing _ body _ E) as U.
    assert (W : w' = snd (updateComment context body w)) by reflexivity.
    rewrite U in W |- *. simpl in W.
    split; [reflexivity|]. split; [rewrite W; split; reflexivity|].
    rewrite After. split; [|split].
    + eexists. split; [left; reflexivity | reflexivity].
    + reflexivity.
    + intros bodies. specialize (All bodies w). rewrite E in All. exact All.
  - pose proof (updateComment_found _ body _ _ _ E) as U.
    assert (W : w' = snd (updateComment context body w)) by reflexivity.
    rewrite U in W |- *. simpl in W.
    split; [reflexivity|].
    split; [rewrite W; simpl; rewrite length_map; repeat split|].
    rewrite After. split; [|split].
    + exists (set_body (comment_id c) body c).
      split; [left; reflexivity | apply set_body_self].
    + simpl. rewrite length_map. reflexivity.
    + intros bodies. specialize (All bodies w). rewrite E in All. exact All.
Qed.

(** ** The runs of the action *)

Section Runs.

Variable safeLoad : jsstring -> option jsval.
Variable safeDump : jsval -> jsstring.
Variable slug : jsstring -> jsstring.
Variable playground :
  Z -> jsval -> jsstring -> jsstring -> jsstring -> locale -> jsstring.
Variable toBadgeLink :
  jsstring -> jsstring -> jsstring -> jsstring -> jsstring -> jsstring.
Variable t : locale -> jsstring -> jsstring.
Variable toISOString : Z -> jsstring.

Local Notation "'action_'" :=
  (action safeLoad safeDump slug playground toBadgeLink t toISOString).
Local Notation "'publish_'" :=
  (publish safeDump slug playground toBadgeLink t toISOString).
Local Notation "'parse_'" := (parse safeLoad).
Local Notation "'parsed_'" := (parsed_of safeLoad).
Local Notation "'accepted_'" := (accepted safeLoad).
Local Notation "'shape_'" := (shape safeLoad safeDump slug).
Local Notation "'badge_'" := (playgroundBadge_of playground toBadgeLink t).

Lemma action_of_trigger context issue w :
  triggers context issue ->
  action_ context w
  = if invalid (parse_ (locale_of issue) (or_empty (issue_body issue)))
    then updateComment context
           (issue_invalid_reply (Messages (locale_of issue))) w
    else
      let p := parse_ (locale_of issue) (or_empty (issue_body issue)) in
      publish_ context issue (locale_of issue) (p_info p) (p_question p)
        (p_template p) (p_tests p) w.
Proof.
  intros [P L]. unfold action. rewrite P, L. unfold locale_of.
  destruct (invalid _); reflexivity.
Qed.

Lemma action_no_trigger context w :
  (forall issue, ~ triggers context issue) -> action_ context w = (Ok tt, w).
Proof.
  intros H. unfold action.
  destruct (payload_issue context) as [issue|] eqn:P; [|reflexivity].
  destruct (includes _ (u16 "new-challenge")) eqn:L; [|reflexivity].
  exfalso. apply (H issue). split; assumption.
Qed.

Lemma createMessageBody_run locale badge n w :
  exists stamp,
    createMessageBody toISOString locale badge n w
    = (Ok (replace_first (u16 "{0}") (num_to_string n)
             (issue_update_reply (Messages locale))
           ++ [10; 10]%N ++ stamp ++ u16 "  " ++ badge),
       after_badge w).
Proof.
  exists (u16 "![" ++ toISOString (clock w (ticks w))
          ++ u16 "](https://img.shields.io/date/"
          ++ num_to_string (Math_round_div_1000 (clock w (S (ticks w))))
          ++ u16 "?color=green&label=)").
  reflexivity.
Qed.

(** A reply is posted by two calls and touches nothing but the comments. *)
Lemma reply_run context locale badge n w :
  exists body c w',
    (body <- createMessageBody toISOString locale badge n ;;
     updateComment context body) w = (Ok tt, w')
    /\ calls w' = calls w ++ [Call.IssuesListComments (issue_number context); c]
    /\ posts (issue_number context) body c
    /\ (exists rest,
          body = replace_first (u16 "{0}") (num_to_string n)
                   (issue_update_reply (Messages locale)) ++ rest)
    /\ pulls w' = pulls w /\ users w' = users w.
Proof.
  destruct (createMessageBody_run locale badge n w) as (stamp & E).
  unfold bind. rewrite E.
  match goal with |- context [updateComment context ?b _] => set (body := b) end.
  exists body.
  destruct (automation_comments (issue_number context) (after_badge w))
    as [|c l] eqn:A.
  - rewrite (updateComment_missing _ body _ A).
    eexists _, _. split; [reflexivity|]. simpl.
    repeat split; [right; reflexivity | eexists; reflexivity].
  - rewrite (updateComment_found _ body _ _ _ A).
    eexists _, _. split; [reflexivity|]. simpl.
    repeat split; [left; eexists; reflexivity | eexists; reflexivity].
Qed.

(** Posting the message that the issue is invalid. *)
Lemma invalid_run context body w :
  exists c w',
    updateComment context body w = (Ok tt, w')
    /\ calls w' = calls w ++ [Call.IssuesListComments (issue_number context); c]
    /\ posts (issue_number context) body c
    /\ pulls w' = pulls w /\ users w' = users w.
Proof.
  destruct (automation_comments (issue_number context) w) as [|c l] eqn:A.
  - rewrite (updateComment_missing _ body _ A).
    eexists _, _. split; [reflexivity|]. simpl.
    repeat split. right; reflexivity.
  - rewrite (updateComment_found _ body _ _ _ A).
    eexists _, _. split; [reflexivity|]. simpl.
    repeat split. left; eexists; reflexivity.
Qed.


Lemma publish_throws_author context issue locale info q tm ts w e :
  fill_author info (issue_user_login issue) (found_user issue w) = Throw e ->
  publish_ context issue locale info q tm ts w
  = (Throw e, record (Call.UsersGetByUsername (issue_user_login issue)) w).
Proof.
  unfold found_user. intros H.
  unfold publish, bind, github.users_getByUsername, lift. simpl.
  rewrite H. reflexivity.
Qed.

Lemma publish_throws_dir context issue locale info q tm ts w info' e :
  fill_author info (issue_user_login issue) (found_user issue w) = Ok info' ->
  dir_of slug (issue_number context) info' = Throw e ->
  publish_ context issue locale info q tm ts w
  = (Throw e,
     record Call.PullsList
       (record (Call.UsersGetByUsername (issue_user_login issue)) w)).
Proof.
  unfold found_user. intros H D.
  unfold publish, bind, github.users_getByUsername, lift. simpl.
  rewrite H. simpl. rewrite D. reflexivity.
Qed.

Lemma publish_throws_user context issue locale info q tm ts w info' dir :
  fill_author info (issue_user_login issue) (found_user issue w) = Ok info' ->
  dir_of slug (issue_number context) info' = Ok dir ->
  found_user issue w = None ->
  publish_ context issue locale info q tm ts w
  = (Throw TypeError,
     record Call.PullsList
       (record (Call.UsersGetByUsername (issue_user_login issue)) w)).
Proof.
  unfold found_user. intros H D U.
  unfold publish, bind, github.users_getByUsername, lift. simpl.
  rewrite H. simpl. rewrite D. simpl. rewrite U. reflexivity.
Qed.


Lemma publish_updates context issue locale info q tm ts w info' dir u p :
  fill_author info (issue_user_login issue) (found_user issue w) = Ok info' ->
  dir_of slug (issue_number context) info' = Ok dir ->
  found_user issue w = Some u ->
  existing_pull (issue_number context) (filter pull_open (pulls w)) = Some p ->
  exists body c w',
    publish_ context issue locale info q tm ts w = (Ok tt, w')
    /\ calls w'
       = calls w
         ++ [Call.UsersGetByUsername (issue_user_login issue);
             Call.PullsList;
             Call.PushCommit
               (commit_of safeDump locale (issue_number context) info' dir u
                  q tm ts false);
             Call.IssuesListComments (issue_number context); c]
    /\ posts (issue_number context) body c
    /\ (exists rest,
          body = replace_first (u16 "{0}") (num_to_string (pull_number p))
                   (issue_update_reply (Messages locale)) ++ rest)
    /\ pulls w' = pulls w.
Proof.
  unfold found_user. intros H D U X.
  unfold publish, bind at 1 2 3 4 5, github.users_getByUsername, lift.
  simpl. rewrite H. simpl. rewrite D. simpl. rewrite U, X.
  match goal with
  | |- context [bind (createMessageBody _ _ ?b ?n) _ ?w0] =>
      destruct (reply_run context locale b n w0)
        as (body & c & w' & R & C & P & B & PL & _)
  end.
  exists body, c, w'. rewrite R. split; [reflexivity|].
  rewrite C. simpl. rewrite <- !app_assoc. simpl.
  repeat split; assumption.
Qed.

Lemma publish_creates context issue locale info q tm ts w info' dir u :
  fill_author info (issue_user_login issue) (found_user issue w) = Ok info' ->
  dir_of slug (issue_number context) info' = Ok dir ->
  found_user issue w = Some u ->
  existing_pull (issue_number context) (filter pull_open (pulls w)) = None ->
  exists body c w',
    publish_ context issue locale info q tm ts w = (Ok tt, w')
    /\ calls w'
       = calls w
         ++ [Call.UsersGetByUsername (issue_user_login issue);
             Call.PullsList;
             Call.PushCommit
               (commit_of safeDump locale (issue_number context) info' dir u
                  q tm ts true);
             Call.PullsCreate (u16 "master")
               (u16 "pulls/" ++ num_to_string (issue_number context))
               (pull_title_of (issue_number context) info')
               (pull_body_of (issue_number context)) [u16 "auto-generated"];
             Call.IssuesListComments (issue_number context); c]
    /\ posts (issue_number context) body c
    /\ (exists rest,
          body = replace_first (u16 "{0}") (num_to_string (next_number w))
                   (issue_update_reply (Messages locale)) ++ rest)
    /\ pulls w'
       = pulls w
         ++ [{| pull_number := next_number w; pull_login := bot;
                pull_title := pull_title_of (issue_number context) info';
                pull_head :=
                  u16 "pulls/" ++ num_to_string (issue_number context);
                pull_open := true |}].
Proof.
  unfold found_user. intros H D U X.
  unfold publish, bind at 1 2 3 4 5 6, github.users_getByUsername, lift.
  simpl. rewrite H. simpl. rewrite D. simpl. rewrite U, X.
  unfold bind at 1, github.pulls_create. simpl.
  match goal with
  | |- context [bind (createMessageBody _ _ ?b ?n) _ ?w0] =>
      destruct (reply_run context locale b n w0)
        as (body & c & w' & R & C & P & B & PL & _)
  end.
  exists body, c, w'. rewrite R. split; [reflexivity|].
  rewrite C. simpl. rewrite <- !app_assoc. simpl.
  repeat split; assumption.
Qed.


Lemma action_shape context w :
  exists new,
    calls (snd (action_ context w)) = calls w ++ new
    /\ shape_ context w new.
Proof.
  destruct (payload_issue context) as [issue|] eqn:P.
  2:{ exists []. rewrite action_no_trigger.
      - simpl. rewrite app_nil_r. split; [reflexivity | constructor].
        intros issue [X _]. congruence.
      - intros issue [X _]. congruence. }
  destruct (includes (label_names (issue_labels issue)) (u16 "new-challenge"))
    eqn:L.
  2:{ exists []. rewrite action_no_trigger.
      - simpl. rewrite app_nil_r. split; [reflexivity | constructor].
        intros issue' [X Y]. congruence.
      - intros issue' [X Y]. congruence. }
  assert (T : triggers context issue) by (split; assumption).
  rewrite (action_of_trigger _ _ _ T). fold (parsed_ issue).
  destruct (invalid (parsed_ issue)) eqn:I.
  - destruct (invalid_run context
                (issue_invalid_reply (Messages (locale_of issue))) w)
      as (c & w' & R & C & Po & _).
    rewrite R. simpl. eexists. split; [exact C|].
    eapply shape_invalid; eassumption.
  - assert (A : accepted_ context issue) by (split; assumption).
    cbv zeta.
    destruct (fill_author (p_info (parsed_ issue)) (issue_user_login issue)
                (found_user issue w)) as [info'|e] eqn:F.
    2:{ rewrite (publish_throws_author _ _ _ _ _ _ _ _ _ F). simpl.
        eexists. split; [reflexivity|].
        eapply shape_throws_author; eassumption. }
    destruct (dir_of slug (issue_number context) info') as [dir|e] eqn:D.
    2:{ rewrite (publish_throws_dir _ _ _ _ _ _ _ _ _ _ F D). simpl.
        rewrite <- app_assoc. eexists. split; [reflexivity|].
        eapply shape_throws_dir; eassumption. }
    destruct (found_user issue w) as [u|] eqn:U; rewrite <- U in F.
    2:{ rewrite (publish_throws_user _ _ _ _ _ _ _ _ _ _ F D U). simpl.
        rewrite <- app_assoc. eexists. split; [reflexivity|].
        eapply shape_throws_user; eassumption. }
    destruct (existing_pull (issue_number context)
                (filter pull_open (pulls w))) as [p|] eqn:X.
    + destruct (publish_updates context issue (locale_of issue)
                  (p_info (parsed_ issue)) (p_question (parsed_ issue))
                  (p_template (parsed_ issue)) (p_tests (parsed_ issue))
                  w info' dir u p F D U X)
        as (body & c & w' & R & C & Po & _).
      rewrite R. simpl. eexists. split; [exact C|].
      eapply shape_updates; eassumption.
    + destruct (publish_creates context issue (locale_of issue)
                  (p_info (parsed_ issue)) (p_question (parsed_ issue))
                  (p_template (parsed_ issue)) (p_tests (parsed_ issue))
                  w info' dir u F D U X)
        as (body & c & w' & R & C & Po & _).
      rewrite R. simpl. eexists. split; [exact C|].
      eapply shape_creates; eassumption.
Qed.

End Runs.

(** ** The workflow *)

Section Workflow.

Variable safeLoad : jsstring -> option jsval.
Variable safeDump : jsval -> jsstring.
Variable slug : jsstring -> jsstring.
Variable playground :
  Z -> jsval -> jsstring -> jsstring -> jsstring -> locale -> jsstring.
Variable toBadgeLink :
  jsstring -> jsstring -> jsstring -> jsstring -> jsstring -> jsstring.
Variable t : locale -> jsstring -> jsstring.
Variable toISOString : Z -> jsstring.

Local Notation "'action_'" :=
  (action safeLoad safeDump slug playground toBadgeLink t toISOString).
Local Notation "'parsed_'" := (parsed_of safeLoad).
Local Notation "'accepted_'" := (accepted safeLoad).
Local Notation "'shape_'" := (shape safeLoad safeDump slug).
Local Notation "'action_shape_'" :=
  (action_shape safeLoad safeDump slug playground toBadgeLink t toISOString).

Lemma startsWith_spec s p :
  startsWith s p = true <-> exists rest, s = p ++ rest.
Proof.
  unfold startsWith. destruct (lit p s) as [r|] eqn:E.
  - apply lit_Some in E. split; [intros _; exists r; exact E | reflexivity].
  - split; [discriminate|]. intros [r ->]. rewrite lit_app in E.
    discriminate.
Qed.

Lemma existing_pull_spec no ps p :
  existing_pull no ps = Some p -> In p ps /\ automation_pull no p.
Proof.
  unfold existing_pull. intros H. apply find_some in H as [I H].
  apply andb_true_iff in H as [H1 H2].
  apply jseqb_eq in H1. apply startsWith_spec in H2 as [rest H2].
  split; [exact I|]. split; [exact H1|]. exists rest. rewrite H2.
  rewrite <- !app_assoc. reflexivity.
Qed.

Lemma existing_pull_none no ps :
  existing_pull no ps = None -> forall p, In p ps -> ~ automation_pull no p.
Proof.
  unfold existing_pull. intros H p I [H1 [rest H2]].
  pose proof (find_none _ _ H p I) as F. cbv beta in F.
  rewrite H1, jseqb_refl in F.
  assert (S : startsWith (pull_title p)
                (u16 "#" ++ num_to_string no ++ u16 " ") = true).
  { apply startsWith_spec. exists rest. rewrite H2.
    rewrite <- !app_assoc. reflexivity. }
  rewrite S in F. discriminate.
Qed.

Ltac split_posts :=
  repeat match goal with
         | H : posts _ _ _ |- _ => destruct H as [[? ->]| ->]
         end.

Ltac split_in I :=
  simpl in I;
  repeat (destruct I as [I|I]; [try discriminate I|]);
  try contradiction.

Lemma shape_push_head context w new :
  shape_ context w new ->
  forall p, In (Call.PushCommit p) new ->
            push_head p = u16 "pulls/" ++ num_to_string (issue_number context).
Proof.
  intros S p I. destruct S; split_posts; split_in I;
    injection I as <-; reflexivity.
Qed.

Lemma shape_no_create context w new :
  shape_ context w new ->
  existing_pull (issue_number context) (filter pull_open (pulls w)) <> None ->
  forall b h ti bd l, ~ In (Call.PullsCreate b h ti bd l) new.
Proof.
  intros S NF b h ti bd l I. destruct S; split_posts; split_in I;
    congruence.
Qed.

(** C5.  The pull request the reconciler takes is an open pull request
    whose author is the bot and whose title starts with [#no ], and it
    finds one whenever there is one.  When there is one, the run creates no
    pull request; and every commit of a run, whichever way the run goes,
    is to the branch [pulls/no]. *)
Theorem reconciler_reuses_the_pull_request context w :
  let no := issue_number context in
  let found := existing_pull no (filter pull_open (pulls w)) in
  (forall p, found = Some p ->
             In p (pulls w) /\ pull_open p = true /\ automation_pull no p)
  /\ (found = None ->
      forall p, In p (pulls w) -> pull_open p = true ->
                ~ automation_pull no p)
  /\ exists new,
       calls (snd (action_ context w)) = calls w ++ new
       /\ (forall p, In (Call.PushCommit p) new ->
                     push_head p = u16 "pulls/" ++ num_to_string no)
       /\ (found <> None ->
           forall b h ti bd l, ~ In (Call.PullsCreate b h ti bd l) new).
Proof.
  intros no found. subst no found. split; [|split].
  - intros p H. apply existing_pull_spec in H as [I A].
    apply filter_In in I as [I O]. auto.
  - intros H p I O. apply (existing_pull_none _ _ H).
    apply filter_In. auto.
  - destruct (action_shape_ context w) as (new & C & S).
    exists new. split; [exact C|]. split.
    + exact (shape_push_head _ _ _ S).
    + exact (shape_no_create _ _ _ S).
Qed.


Lemma lookup_assign_other k v q m :
  jseqb k q = false -> lookup q (assign k v m) = lookup q m.
Proof.
  intros N. induction m as [|[k' v'] m IH]; simpl.
  - rewrite N. reflexivity.
  - destruct (jseqb k' k) eqn:E; simpl.
    + apply jseqb_eq in E. subst k'. rewrite N. reflexivity.
    + destruct (jseqb k' q); [reflexivity | exact IH].
Qed.

Lemma lookup_assign_same k v m : lookup k (assign k v m) = Some v.
Proof.
  induction m as [|[k' v'] m IH]; simpl.
  - rewrite jseqb_refl. reflexivity.
  - destruct (jseqb k' k) eqn:E; simpl; rewrite E; [reflexivity | exact IH].
Qed.

Lemma fill_author_keeps info login user info' q :
  fill_author info login user = Ok info' ->
  jseqb (u16 "author") q = false ->
  get_prop info' q = get_prop info q.
Proof.
  unfold fill_author.
  destruct (truthy (get_prop info (u16 "author"))); [congruence|].
  destruct info; try discriminate; intros [= <-] N; [reflexivity|].
  unfold get_prop. rewrite (lookup_assign_other _ _ _ _ N). reflexivity.
Qed.




(** C8, as the code has it.  For an issue that passes the check, when the
    user lookup returns no record the run throws a [TypeError]: after the
    lookup, or after the list of pull requests that follows it.  It makes
    no commit, creates no pull request and posts no comment. *)
Theorem missing_profile_throws context issue w :
  accepted_ context issue ->
  found_user issue w = None ->
  exists w',
    action_ context w = (Throw TypeError, w')
    /\ (calls w' = calls w ++ [Call.UsersGetByUsername (issue_user_login issue)]
        \/ calls w' = calls w ++ [Call.UsersGetByUsername
                                    (issue_user_login issue);
                                  Call.PullsList])
    /\ comments w' = comments w /\ pulls w' = pulls w.
Proof.
  intros [T I] U.
  rewrite (action_of_trigger _ _ _ _ _ _ _ _ _ _ T).
  fold (parsed_ issue). rewrite I. cbv zeta.
  destruct (fill_author (p_info (parsed_ issue)) (issue_user_login issue)
              (found_user issue w)) as [info'|[]] eqn:F.
  2:{ rewrite (publish_throws_author _ _ _ _ _ _ _ _ _ _ _ _ _ _ _ F).
      eexists. split; [reflexivity|]. simpl. auto. }
  destruct (dir_of slug (issue_number context) info') as [dir|[]] eqn:D.
  2:{ rewrite (publish_throws_dir _ _ _ _ _ _ _ _ _ _ _ _ _ _ _ _ F D).
      eexists. split; [reflexivity|]. simpl. rewrite <- app_assoc. auto. }
  rewrite (publish_throws_user _ _ _ _ _ _ _ _ _ _ _ _ _ _ _ _ F D U).
  eexists. split; [reflexivity|]. simpl. rewrite <- app_assoc. auto.
Qed.


Lemma triggers_unique context i1 i2 :
  triggers context i1 -> triggers context i2 -> i1 = i2.
Proof. intros [P1 _] [P2 _]. congruence. Qed.

Lemma truthy_str_spec s :
  truthy_str s = true <-> exists x, s = Some x /\ x <> [].
Proof.
  destruct s as [[|c x]|]; simpl; split; try discriminate.
  - intros (x & [= <-] & N). congruence.
  - intros _. eexists. split; [reflexivity | discriminate].
  - reflexivity.
  - intros (x & E & _). discriminate E.
Qed.

Lemma truthy_spec v :
  truthy v = true
  <-> ~ In v [JUndefined; JNull; JBool false; JNum 0; JStr []].
Proof.
  split.
  - intros H I. simpl in I.
    repeat (destruct I as [<-|I]; [discriminate H|]). exact I.
  - intros H. destruct v as [| |[|]|z|[|c s]|l|m]; simpl in *; try tauto.
    destruct (Z.eqb_spec z 0) as [->|]; [exfalso; tauto | reflexivity].
Qed.

(** C2, as amended.  An issue passes the check exactly when the question,
    the template and the tests are non-null and non-empty and the info is
    truthy (not undefined, null, false, zero or the empty string).  When it
    does not pass, the run lists the comments of the issue and posts the
    invalid-format message, and calls nothing else; when it passes, the
    next call is the user lookup. *)
Theorem gate_checks_truthiness context issue w :
  triggers context issue ->
  let p := parsed_ issue in
  let no := issue_number context in
  (invalid p = false <->
   (exists x, p_question p = Some x /\ x <> [])
   /\ (exists x, p_template p = Some x /\ x <> [])
   /\ (exists x, p_tests p = Some x /\ x <> [])
   /\ ~ In (p_info p) [JUndefined; JNull; JBool false; JNum 0; JStr []])
  /\ (invalid p = true ->
      exists c w',
        action_ context w = (Ok tt, w')
        /\ calls w' = calls w ++ [Call.IssuesListComments no; c]
        /\ posts no (issue_invalid_reply (Messages (locale_of issue))) c
        /\ pulls w' = pulls w)
  /\ (invalid p = false ->
      exists rest,
        calls (snd (action_ context w))
        = calls w ++ Call.UsersGetByUsername (issue_user_login issue) :: rest).
Proof.
  intros T p no. subst p no. split; [|split].
  - unfold invalid. rewrite <- !truthy_str_spec, <- truthy_spec.
    rewrite !orb_false_iff, !negb_false_iff. tauto.
  - intros I. rewrite (action_of_trigger _ _ _ _ _ _ _ _ _ _ T).
    fold (parsed_ issue). rewrite I.
    destruct (invalid_run context
                (issue_invalid_reply (Messages (locale_of issue))) w)
      as (c & w' & R & C & Po & Pu & _).
    exists c, w'. auto.
  - intros I. destruct (action_shape_ context w) as (new & C & S).
    rewrite C.
    destruct S as [N|i ? T' I'|i ? [T' _]|i ? ? [T' _]|i ? ? [T' _]
                   |i ? ? ? ? ? ? [T' _]|i ? ? ? ? ? [T' _]];
      try (rewrite (triggers_unique _ _ _ T' T) in * );
      try (eexists; reflexivity).
    + exfalso. exact (N _ T).
    + congruence.
Qed.


(** *** The title before the slug *)

Lemma replace_dots_no_dot s : ~ In 46%N (replace_dots s).
Proof.
  unfold replace_dots. intros I. apply in_map_iff in I as (c & E & _).
  destruct (N.eqb_spec c 46); [discriminate E | contradiction].
Qed.
















(** *** The author of the challenge *)

(** C7, as amended.  When the author in the metadata is truthy, the
    resolver returns the metadata as it is, whatever the profile.  When
    the metadata is an object whose author is absent or falsy, the author
    becomes an object with the login of the issue author as [github] and,
    when the lookup found a profile, its display name as [name]; the other
    properties keep their values. *)
Theorem author_override_when_truthy info login user :
  (truthy (get_prop info (u16 "author")) = true ->
   fill_author info login user = Ok info)
  /\ (forall m,
        info = JObj m ->
        truthy (get_prop info (u16 "author")) = false ->
        exists info',
          fill_author info login user = Ok info'
          /\ get_prop info' (u16 "author")
             = JObj ((u16 "github", JStr login)
                     :: match user with
                        | Some u =>
                            [(u16 "name",
                              match user_name u with
                              | Some n => JStr n
                              | None => JNull
                              end)]
                        | None => []
                        end)
          /\ forall q, jseqb (u16 "author") q = false ->
                       get_prop info' q = get_prop info q).
Proof.
  split.
  - intros H. unfold fill_author. rewrite H. reflexivity.
  - intros m -> H. eexists. split; [|split].
    + unfold fill_author. rewrite H. reflexivity.
    + unfold get_prop. rewrite lookup_assign_same. reflexivity.
    + intros q N. unfold get_prop.
      rewrite (lookup_assign_other _ _ _ _ N). reflexivity.
Qed.


(** *** Blank sections *)

Lemma getCodeBlock_blank text title lang :
  (forall g, exec (code_block_at title lang) text = Some g ->
             forallb is_ws g = true) ->
  getCodeBlock text title lang = None
  \/ getCodeBlock text title lang = Some [].
Proof.
  intros H. unfold getCodeBlock.
  destruct (exec (code_block_at title lang) text) as [[|c g]|];
    [left; reflexivity | right | left; reflexivity].
  rewrite (trim_blank _ (H _ eq_refl)). reflexivity.
Qed.

Lemma blank_section_invalid issue title lang :
  (forall v, safeLoad [] = Some v -> truthy v = false) ->
  In (title, lang)
     [(info (Messages (locale_of issue)), u16 "yaml");
      (template (Messages (locale_of issue)), u16 "ts");
      (tests (Messages (locale_of issue)), u16 "ts")] ->
  (getCodeBlock (or_empty (issue_body issue)) title lang = None
   \/ getCodeBlock (or_empty (issue_body issue)) title lang = Some []) ->
  invalid (parsed_ issue) = true.
Proof.
  intros L I B. unfold invalid, parsed_of, parse. cbn [p_question p_template
    p_tests p_info].
  destruct I as [[= <- <-]|[[= <- <-]|[[= <- <-]|[]]]].
  - assert (E : or_empty (getCodeBlock (or_empty (issue_body issue))
                            (info (Messages (locale_of issue))) (u16 "yaml"))
                = []) by (destruct B as [-> | ->]; reflexivity).
    rewrite E. rewrite !orb_true_iff. right.
    destruct (safeLoad []) as [v|] eqn:S; [|reflexivity].
    rewrite (L _ eq_refl). reflexivity.
  - rewrite !orb_true_iff. left. left. right.
    destruct B as [-> | ->]; reflexivity.
  - rewrite !orb_true_iff. left. right.
    destruct B as [-> | ->]; reflexivity.
Qed.

(** C10, as amended.  Take a required section (info, template or tests)
    of the body of an issue that starts the workflow, and a YAML loader for
    which the empty document is falsy.  The content of the block is all
    that stands between the language tag of the opening fence and the
    closing fence, the rest of the line of the opening fence included.
    When it is empty or white space only, [getCodeBlock] returns null or
    the empty string and the run is the posting of the invalid-format
    message; and so it is when the pattern of the section has no match.
    When it is not, [getCodeBlock] returns it trimmed, a string that is
    not empty. *)
Theorem blank_section_is_invalid context issue w title lang :
  triggers context issue ->
  (forall v, safeLoad [] = Some v -> truthy v = false) ->
  In (title, lang)
     [(info (Messages (locale_of issue)), u16 "yaml");
      (template (Messages (locale_of issue)), u16 "ts");
      (tests (Messages (locale_of issue)), u16 "ts")] ->
  let body := or_empty (issue_body issue) in
  let outcome :=
    (getCodeBlock body title lang = None
     \/ getCodeBlock body title lang = Some [])
    /\ action_ context w
       = updateComment context
           (issue_invalid_reply (Messages (locale_of issue))) w in
  (forall g, exec (code_block_at title lang) body = Some g ->
             forallb is_ws g = true -> outcome)
  /\ (exec (code_block_at title lang) body = None -> outcome)
  /\ (forall g, exec (code_block_at title lang) body = Some g ->
                forallb is_ws g = false ->
                getCodeBlock body title lang = Some (trim g)
                /\ trim g <> []).
Proof.
  intros T L I body outcome. subst body outcome.
  assert (G : (forall g, exec (code_block_at title lang)
                           (or_empty (issue_body issue)) = Some g ->
                         forallb is_ws g = true) ->
              (getCodeBlock (or_empty (issue_body issue)) title lang = None
               \/ getCodeBlock (or_empty (issue_body issue)) title lang
                  = Some [])
              /\ action_ context w
                 = updateComment context
                     (issue_invalid_reply (Messages (locale_of issue))) w).
  { intros H. pose proof (getCodeBlock_blank _ _ _ H) as B.
    split; [exact B|].
    rewrite (action_of_trigger _ _ _ _ _ _ _ _ _ _ T).
    fold (parsed_ issue).
    rewrite (blank_section_invalid _ _ _ L I B). reflexivity. }
  split; [|split].
  - intros g E W. apply G. intros g' E'. congruence.
  - intros E. apply G. intros g' E'. congruence.
  - intros g E W. unfold getCodeBlock. rewrite E.
    destruct g as [|c g]; [discriminate W|].
    split; [reflexivity|].
    intros N. apply trim_nil_blank in N. congruence.
Qed.

End Workflow.

(** ** Examples *)

Section Examples.

Local Notation "'pick_context'" := (Demo.context_with Demo.pick_body).
Local Notation "'pick_issue'" := (Demo.issue_with Demo.pick_body).

Lemma pick_accepted : accepted Demo.safeLoad pick_context pick_issue.
Proof. repeat split. Qed.


(** C2 at the example: the issue passes the check, and the run goes on to
    the user lookup. *)
Lemma gate_checks_truthiness_witness :
  triggers pick_context pick_issue
  /\ invalid (parsed_of Demo.safeLoad pick_issue) = false
  /\ exists rest,
       calls (snd (Demo.action pick_context Demo.fresh))
       = calls Demo.fresh ++ Call.UsersGetByUsername (u16 "octocat") :: rest.
Proof.
  split; [repeat split|]. split; [reflexivity|].
  exact (proj2 (proj2 (gate_checks_truthiness Demo.safeLoad Demo.safeDump
                         Demo.slug Demo.playground Demo.toBadgeLink Demo.t
                         Demo.toISOString pick_context pick_issue Demo.fresh
                         (proj1 pick_accepted)))
               eq_refl).
Defined.

(** C2 as stated fails: with a template block of two spaces, the question,
    the template and the tests are non-null and the info is an object, and
    yet the issue does not pass; the run posts the invalid-format
    message. *)
Lemma gate_rejects_a_blank_template :
  let p := parse Demo.safeLoad en Demo.blank_template_body in
  p_question p <> None /\ p_template p = Some [] /\ p_tests p <> None
  /\ (exists m, p_info p = JObj m)
  /\ invalid p = true
  /\ calls (snd (Demo.action (Demo.context_with Demo.blank_template_body)
                   Demo.fresh))
     = [Call.IssuesListComments 42;
        Call.IssuesCreateComment 42 (issue_invalid_reply (Messages en))].
Proof.
  vm_compute. repeat split; try discriminate. eexists. reflexivity.
Qed.



(** C6 at the example. *)
Lemma extractors_first_lazy_trimmed_witness :
  literal (u16 "Template") = true /\ literal (u16 "ts") = true
  /\ literal (u16 "question") = true
  /\ (exists pre mid g post,
        first3 (u16 "## Template") (u16 "```ts") (u16 "```")
          Demo.pick_body pre mid g post
        /\ g <> [] /\ u16 "type MyPick<T, K> = any" = trim g)
  /\ (exists pre g post,
        first2 (u16 "<!--question-start-->") (u16 "<!--question-end-->")
          Demo.pick_body pre g post
        /\ g <> [] /\ u16 "Implement Pick." = trim g).
Proof.
  repeat (split; [reflexivity|]).
  pose proof (extractors_first_lazy_trimmed Demo.pick_body (u16 "Template")
                (u16 "ts") (u16 "question") eq_refl eq_refl eq_refl)
    as [H1 H2].
  change (getCodeBlock Demo.pick_body (u16 "Template") (u16 "ts"))
    with (Some (u16 "type MyPick<T, K> = any")) in H1.
  change (getCommentRange Demo.pick_body (u16 "question"))
    with (Some (u16 "Implement Pick.")) in H2.
  split; [exact H1 | exact H2].
Defined.

(** C6 as stated fails: in [## Template```ts```] the pattern matches, with
    an empty group, and the result is null, not the trimmed group. *)
Lemma empty_group_is_null :
  literal (u16 "Template") = true /\ literal (u16 "ts") = true
  /\ first3 (u16 "## " ++ u16 "Template") (u16 "```" ++ u16 "ts") (u16 "```")
       (u16 "## Template```ts```") [] [] [] []
  /\ getCodeBlock (u16 "## Template```ts```") (u16 "Template") (u16 "ts")
     = None
  /\ getCodeBlock (u16 "## Template```ts```") (u16 "Template") (u16 "ts")
     <> Some (trim []).
Proof.
  repeat (split; [reflexivity|]). split; [|split; [reflexivity|discriminate]].
  split; [reflexivity|].
  intros pre' mid' g' post' _. simpl.
  destruct pre'; simpl; [|left; lia]. right. split; [reflexivity|].
  destruct mid'; simpl; [|left; lia]. right. split; [reflexivity|lia].
Qed.

(** C7 as stated fails: metadata whose author is the empty string has an
    author field, and the resolver replaces it. *)
Lemma empty_author_is_overwritten :
  (exists m, Demo.empty_author = JObj m
             /\ lookup (u16 "author") m = Some (JStr []))
  /\ fill_author Demo.empty_author (u16 "octocat") (Some Demo.octocat)
     = Ok (JObj [(u16 "title", JStr (u16 "Pick"));
                 (u16 "author",
                  JObj [(u16 "github", JStr (u16 "octocat"));
                        (u16 "name", JStr (u16 "The Octocat"))])])
  /\ fill_author Demo.empty_author (u16 "octocat") (Some Demo.octocat)
     <> Ok Demo.empty_author.
Proof.
  split; [eexists; split; reflexivity|]. split; [reflexivity|].
  vm_compute. discriminate.
Qed.

(** C7 at the example: an author object is kept, an absent one is
    filled. *)
Lemma author_override_when_truthy_witness :
  fill_author
    (JObj [(u16 "author", JObj [(u16 "github", JStr (u16 "someone"))])])
    (u16 "octocat") (Some Demo.octocat)
  = Ok (JObj [(u16 "author", JObj [(u16 "github", JStr (u16 "someone"))])])
  /\ exists info',
       fill_author (JObj [(u16 "title", JStr (u16 "Pick"))]) (u16 "octocat")
         (Some Demo.octocat) = Ok info'
       /\ get_prop info' (u16 "author")
          = JObj [(u16 "github", JStr (u16 "octocat"));
                  (u16 "name", JStr (u16 "The Octocat"))].
Proof.
  split.
  - exact (proj1 (author_override_when_truthy
                    (JObj [(u16 "author",
                            JObj [(u16 "github", JStr (u16 "someone"))])])
                    (u16 "octocat") (Some Demo.octocat)) eq_refl).
  - destruct (proj2 (author_override_when_truthy
                       (JObj [(u16 "title", JStr (u16 "Pick"))])
                       (u16 "octocat") (Some Demo.octocat)) _ eq_refl eq_refl)
      as (info' & F & A & _).
    exists info'. split; [exact F | exact A].
Defined.

(** C8 at the example: without a profile the run throws after the list of
    pull requests. *)
Lemma missing_profile_throws_witness :
  accepted Demo.safeLoad pick_context pick_issue
  /\ found_user pick_issue Demo.no_profile = None
  /\ exists w',
       Demo.action pick_context Demo.no_profile = (Throw TypeError, w')
       /\ comments w' = [] /\ pulls w' = [].
Proof.
  split; [exact pick_accepted|]. split; [reflexivity|].
  destruct (missing_profile_throws Demo.safeLoad Demo.safeDump Demo.slug
              Demo.playground Demo.toBadgeLink Demo.t Demo.toISOString
              pick_context pick_issue Demo.no_profile pick_accepted eq_refl)
    as (w' & R & _ & C & P).
  exists w'. split; [exact R|]. split; [exact C | exact P].
Defined.

(** C9 at the example. *)
Lemma reextraction_of_rewritten_section_witness :
  getCodeBlock Demo.pick_body (u16 "Template") (u16 "ts")
  = Some (u16 "type MyPick<T, K> = any")
  /\ getCodeBlock
       (section_of (u16 "Template") (u16 "ts") (u16 "type MyPick<T, K> = any"))
       (u16 "Template") (u16 "ts")
     = Some (u16 "type MyPick<T, K> = any").
Proof.
  split; [reflexivity|].
  exact (proj1 (proj2 (reextraction_of_rewritten_section Demo.pick_body
                         (u16 "Template") (u16 "ts")
                         (u16 "type MyPick<T, K> = any") eq_refl))).
Defined.

(** C9 as stated fails: extracting again from what was extracted gives
    null. *)
Lemma reextraction_of_the_output_is_null :
  getCodeBlock Demo.pick_body (u16 "Template") (u16 "ts")
  = Some (u16 "type MyPick<T, K> = any")
  /\ getCodeBlock (u16 "type MyPick<T, K> = any") (u16 "Template") (u16 "ts")
     = None.
Proof. split; reflexivity. Qed.

(** C10 at the example: the template block of two spaces. *)
Lemma blank_section_is_invalid_witness :
  triggers (Demo.context_with Demo.blank_template_body)
    (Demo.issue_with Demo.blank_template_body)
  /\ (forall v, Demo.safeLoad [] = Some v -> truthy v = false)
  /\ exec (code_block_at (u16 "Template") (u16 "ts")) Demo.blank_template_body
     = Some [10; 32; 32; 10]%N
  /\ getCodeBlock Demo.blank_template_body (u16 "Template") (u16 "ts")
     = Some []
  /\ Demo.action (Demo.context_with Demo.blank_template_body) Demo.fresh
     = updateComment (Demo.context_with Demo.blank_template_body)
         (issue_invalid_reply (Messages en)) Demo.fresh.
Proof.
  assert (L : forall v, Demo.safeLoad [] = Some v -> truthy v = false)
    by (intros v [= <-]; reflexivity).
  split; [repeat split|]. split; [exact L|]. split; [reflexivity|].
  split; [reflexivity|].
  exact (proj2 (proj1 (blank_section_is_invalid Demo.safeLoad Demo.safeDump
                         Demo.slug Demo.playground Demo.toBadgeLink Demo.t
                         Demo.toISOString
                         (Demo.context_with Demo.blank_template_body)
                         (Demo.issue_with Demo.blank_template_body)
                         Demo.fresh (u16 "Template") (u16 "ts")
                         (conj eq_refl eq_refl) L
                         (or_intror (or_introl eq_refl)))
                      [10; 32; 32; 10]%N eq_refl eq_refl)).
Defined.

(** C10 as stated fails: the template block of the issue is opened by
    [```ts twoslash] and holds three spaces.  Its lines are blank, and yet
    [getCodeBlock] returns [twoslash], the issue passes the check and the
    run commits [twoslash] as the template and creates the pull request. *)
Lemma blank_twoslash_block_is_accepted :
  exec (code_block_at (u16 "Template") (u16 "ts")) Sample.twoslash_body
  = Some (u16 " twoslash" ++ [10%N] ++ u16 "   " ++ [10%N])
  /\ forallb is_ws
       (block_lines (u16 " twoslash" ++ [10%N] ++ u16 "   " ++ [10%N]))
     = true
  /\ getCodeBlock Sample.twoslash_body (u16 "Template") (u16 "ts")
     = Some (u16 "twoslash")
  /\ invalid (parse Demo.safeLoad en Sample.twoslash_body) = false
  /\ Demo.action (Demo.context_with Sample.twoslash_body) Demo.fresh
     <> updateComment (Demo.context_with Sample.twoslash_body)
          (issue_invalid_reply (Messages en)) Demo.fresh
  /\ exists commit title text body,
       calls (snd (Demo.action (Demo.context_with Sample.twoslash_body)
                     Demo.fresh))
       = [Call.UsersGetByUsername (u16 "octocat"); Call.PullsList;
          Call.PushCommit commit;
          Call.PullsCreate (u16 "master") (u16 "pulls/42") title text
            [u16 "auto-generated"];
          Call.IssuesListComments 42; Call.IssuesCreateComment 42 body]
       /\ In (u16 "questions/42-easy-pick/template.ts",
              u16 "twoslash" ++ [10%N]) (push_files commit).
Proof.
  split; [vm_compute; reflexivity|]. split; [vm_compute; reflexivity|].
  split; [vm_compute; reflexivity|]. split; [vm_compute; reflexivity|].
  split.
  - intros E. apply (f_equal (fun r => length (calls (snd r)))) in E.
    vm_compute in E. discriminate E.
  - vm_compute. do 4 eexists. split; [reflexivity|].
    right. right. left. reflexivity.
Qed.

End Examples.

(** * Further properties of the script *)

(** ** Labels, and what a run commits and creates *)

Ltac posts_cases :=
  repeat match goal with
         | H : posts _ _ _ |- _ => destruct H as [[? ->]| ->]
         end.

Ltac in_cases I :=
  simpl in I;
  repeat (destruct I as [I|I]; [try discriminate I|]);
  try contradiction.

Section Publishing.

Variable safeLoad : jsstring -> option jsval.
Variable safeDump : jsval -> jsstring.
Variable slug : jsstring -> jsstring.
Variable playground :
  Z -> jsval -> jsstring -> jsstring -> jsstring -> locale -> jsstring.
Variable toBadgeLink :
  jsstring -> jsstring -> jsstring -> jsstring -> jsstring -> jsstring.
Variable t : locale -> jsstring -> jsstring.
Variable toISOString : Z -> jsstring.

Local Notation "'action_'" :=
  (action safeLoad safeDump slug playground toBadgeLink t toISOString).
Local Notation "'parsed_'" := (parsed_of safeLoad).
Local Notation "'accepted_'" := (accepted safeLoad).
Local Notation "'shape_'" := (shape safeLoad safeDump slug).
Local Notation "'action_shape_'" :=
  (action_shape safeLoad safeDump slug playground toBadgeLink t toISOString).

Lemma includes_label_names l x :
  x <> [] -> (includes (label_names l) x = true <-> In (Some x) l).
Proof.
  intros Nx. unfold includes. induction l as [|[[|c n]|] l IH]; simpl.
  - split; [discriminate | contradiction].
  - rewrite IH. split; [auto|]. intros [[= E]|I]; [congruence | exact I].
  - rewrite orb_true_iff, IH. split.
    + intros [E|I]; [left | right; exact I].
      apply jseqb_eq in E. rewrite E. reflexivity.
    + intros [[= E]|I]; [left | right; exact I].
      rewrite E. apply jseqb_refl.
  - rewrite IH. split; [auto|]. intros [E|I]; [discriminate E | exact I].
Qed.

Lemma triggers_labelled context :
  (exists issue, triggers context issue)
  <-> labelled context (u16 "new-challenge").
Proof.
  unfold triggers, labelled.
  split; intros (issue & P & L); exists issue; split; try exact P;
    apply (includes_label_names _ (u16 "new-challenge")); try exact L;
    discriminate.
Qed.

Lemma shape_nonempty context w new issue :
  triggers context issue -> shape_ context w new -> new <> [].
Proof.
  intros T S. destruct S; try discriminate.
  exfalso. match goal with H : forall i, ~ triggers _ i |- _ =>
                             exact (H _ T) end.
Qed.

(** X1.  A run does nothing at all (it returns, with no call made and the
    repository as it was) exactly when the event has no issue or the issue
    has no label named [new-challenge]; label entries that are null or
    have no name do not count. *)
Theorem action_idle_without_label context w :
  action_ context w = (Ok tt, w)
  <-> ~ labelled context (u16 "new-challenge").
Proof.
  rewrite <- triggers_labelled. split.
  - intros E [issue T].
    destruct (action_shape_ context w) as (new & C & S).
    rewrite E in C. simpl in C.
    rewrite <- (app_nil_r (calls w)) in C at 1.
    apply app_inv_head in C. symmetry in C.
    exact (shape_nonempty _ _ _ _ T S C).
  - intros N. apply action_no_trigger. intros issue T. apply N.
    exists issue. exact T.
Qed.

Lemma accepted_sections context issue :
  accepted_ context issue ->
  exists q tm ts,
    p_question (parsed_ issue) = Some q /\ q <> []
    /\ p_template (parsed_ issue) = Some tm /\ tm <> []
    /\ p_tests (parsed_ issue) = Some ts /\ ts <> []
    /\ truthy (p_info (parsed_ issue)) = true.
Proof.
  intros [_ I]. unfold invalid in I.
  rewrite !orb_false_iff, !negb_false_iff in I.
  destruct I as [[[Q T] S] F].
  apply truthy_str_spec in Q as (q & Q & Nq).
  apply truthy_str_spec in T as (tm & T & Nt).
  apply truthy_str_spec in S as (ts & S & Ns).
  exists q, tm, ts. auto 10.
Qed.

Lemma files_of_distinct locale dir info q tm ts :
  NoDup (map fst (files_of safeDump locale dir info q tm ts)).
Proof.
  unfold files_of. cbn [map fst].
  assert (D : forall a b, a <> b -> dir ++ a <> dir ++ b).
  { intros a b N E. apply app_inv_head in E. exact (N E). }
  destruct locale; repeat constructor; simpl;
    intros I; repeat (destruct I as [I|I]; [revert I; apply D; discriminate|]);
    exact I.
Qed.

Lemma shape_commit context w new commit :
  shape_ context w new ->
  In (Call.PushCommit commit) new ->
  exists issue info' dir u,
    accepted_ context issue
    /\ fill_author (p_info (parsed_ issue)) (issue_user_login issue)
         (found_user issue w) = Ok info'
    /\ dir_of slug (issue_number context) info' = Ok dir
    /\ found_user issue w = Some u
    /\ commit
       = commit_of safeDump (locale_of issue) (issue_number context) info'
           dir u (p_question (parsed_ issue)) (p_template (parsed_ issue))
           (p_tests (parsed_ issue))
           match existing_pull (issue_number context)
                   (filter pull_open (pulls w)) with
           | Some _ => false
           | None => true
           end.
Proof.
  intros S I.
  destruct S as [| | | | |issue info' dir u p body c A F D U X Po
                 |issue info' dir u body c A F D U X Po];
    posts_cases; in_cases I; injection I as I;
    exists issue, info', dir, u; rewrite X; auto.
Qed.

(** X2.  Every commit of a run carries exactly four files with pairwise
    distinct paths in one directory: the dumped metadata, the question,
    the template and the tests, each followed by a line feed.  The
    metadata that is dumped is what the loader made of the text of the
    info block, with the author filled in: as it was loaded when it names
    an author that is truthy, and otherwise with an author made of the
    login of the issue, as [github], and the name of the profile found for
    it, as [name].  The question, the template and the tests are the
    non-empty texts that the extractors returned.  The metadata file and
    the README carry the locale in their names when the issue has the
    label [zh-CN]; [template.ts] and [test-cases.ts] never do.  The commit
    message names the issue and the title. *)
Theorem committed_files context w new commit :
  calls (snd (action_ context w)) = calls w ++ new ->
  In (Call.PushCommit commit) new ->
  exists issue dir meta info' title q tm ts,
    let body := or_empty (issue_body issue) in
    let l := locale_of issue in
    triggers context issue
    /\ (l = zh_CN <-> In (Some (u16 "zh-CN")) (issue_labels issue))
    /\ safeLoad (or_empty (getCodeBlock body (info (Messages l)) (u16 "yaml")))
       = Some meta
    /\ truthy meta = true
    /\ fill_author meta (issue_user_login issue) (found_user issue w)
       = Ok info'
    /\ (if truthy (get_prop meta (u16 "author")) then info' = meta
        else exists m u,
               meta = JObj m /\ found_user issue w = Some u
               /\ info'
                  = JObj (assign (u16 "author")
                            (JObj [(u16 "github",
                                    JStr (issue_user_login issue));
                                   (u16 "name",
                                    match user_name u with
                                    | Some n => JStr n
                                    | None => JNull
                                    end)]) m))
    /\ getCommentRange body (u16 "question") = Some q /\ q <> []
    /\ getCodeBlock body (template (Messages l)) (u16 "ts") = Some tm
    /\ tm <> []
    /\ getCodeBlock body (tests (Messages l)) (u16 "ts") = Some ts
    /\ ts <> []
    /\ push_files commit
       = [(dir ++ u16 "/" ++ info_file l, safeDump info' ++ [10%N]);
          (dir ++ u16 "/" ++ readme_file l, q ++ [10%N]);
          (dir ++ u16 "/template.ts", tm ++ [10%N]);
          (dir ++ u16 "/test-cases.ts", ts ++ [10%N])]
    /\ NoDup (map fst (push_files commit))
    /\ get_prop info' (u16 "title") = JStr title
    /\ push_commit commit
       = u16 "feat(question): add #" ++ num_to_string (issue_number context)
         ++ u16 " - " ++ title.
Proof.
  intros C I.
  destruct (action_shape_ context w) as (new' & C' & S).
  rewrite C in C'. apply app_inv_head in C'. subst new'.
  destruct (shape_commit _ _ _ _ S I) as (issue & info' & dir & u & A & F & D
                                          & U & ->).
  destruct (accepted_sections _ _ A)
    as (q & tm & ts & Q & Nq & T & Nt & Ts & Ns & Tr).
  unfold dir_of in D.
  destruct (get_prop info' (u16 "title")) as [| | | |title| |] eqn:Ti;
    try discriminate D.
  assert (L : exists meta,
             safeLoad (or_empty (getCodeBlock (or_empty (issue_body issue))
                                   (info (Messages (locale_of issue)))
                                   (u16 "yaml"))) = Some meta
             /\ p_info (parsed_ issue) = meta).
  { unfold parsed_of, parse in Tr |- *. cbn [p_info] in Tr |- *.
    destruct (safeLoad _) as [meta|]; [|discriminate Tr].
    exists meta. split; reflexivity. }
  destruct L as (meta & L & Em). rewrite Em in F, Tr.
  exists issue, dir, meta, info', title, q, tm, ts. cbv zeta.
  split; [exact (proj1 A)|]. split.
  { unfold locale_of.
    rewrite <- (includes_label_names (issue_labels issue) (u16 "zh-CN"))
      by discriminate.
    destruct (includes _ (u16 "zh-CN")); split; congruence. }
  split; [exact L|]. split; [exact Tr|]. split; [exact F|]. split.
  { unfold fill_author in F.
    destruct (truthy (get_prop meta (u16 "author"))).
    - injection F as <-. reflexivity.
    - destruct meta as [| | | | |arr|m]; try discriminate F.
      + injection F as <-. discriminate Ti.
      + exists m, u. split; [reflexivity|]. split; [exact U|].
        rewrite U in F. injection F as <-. reflexivity. }
  unfold parsed_of, parse in Q, T, Ts. cbn [p_question p_template p_tests]
    in Q, T, Ts.
  split; [exact Q|]. split; [exact Nq|]. split; [exact T|].
  split; [exact Nt|]. split; [exact Ts|]. split; [exact Ns|].
  unfold commit_of. cbn [push_files push_commit].
  split; [|split; [apply files_of_distinct|split; [exact Ti|]]].
  - unfold files_of, parsed_of, parse. cbn [p_question p_template p_tests].
    rewrite Q, T, Ts. destruct (locale_of issue); reflexivity.
  - rewrite Ti. reflexivity.
Qed.

(** X3.  A run creates a pull request only when it found none for the
    issue, and then right after a commit flagged [fresh] on the same base
    and branch: the pull request goes from [pulls/no] into [master], is
    labelled [auto-generated], closes the issue in its body, and its title
    is what the commit message adds.  A commit is flagged [fresh] exactly
    when no pull request was found, and a fresh commit is always followed
    by the creation. *)
Theorem pull_request_follows_fresh_commit context w :
  let no := issue_number context in
  let found := existing_pull no (filter pull_open (pulls w)) in
  exists new,
    calls (snd (action_ context w)) = calls w ++ new
    /\ (forall b h ti bd l,
          In (Call.PullsCreate b h ti bd l) new ->
          found = None /\ b = u16 "master"
          /\ h = u16 "pulls/" ++ num_to_string no
          /\ bd = pull_body_of no /\ l = [u16 "auto-generated"]
          /\ exists commit,
               In (Call.PushCommit commit) new
               /\ push_fresh commit = true
               /\ push_base commit = b /\ push_head commit = h
               /\ push_commit commit = u16 "feat(question): add " ++ ti)
    /\ (forall commit,
          In (Call.PushCommit commit) new ->
          (push_fresh commit = true <-> found = None)
          /\ (push_fresh commit = true ->
              exists ti,
                In (Call.PullsCreate (push_base commit) (push_head commit) ti
                      (pull_body_of no) [u16 "auto-generated"]) new)).
Proof.
  intros no found. subst no found.
  destruct (action_shape_ context w) as (new & C & S).
  exists new. split; [exact C|].
  destruct S as [| | | | |issue info' dir u p body c A F D U X Po
                 |issue info' dir u body c A F D U X Po];
    posts_cases; (split; [intros b h ti bd l I | intros commit I]);
    in_cases I.
  all: try (injection I as <-; rewrite X; split;
            [split; [discriminate | discriminate] | discriminate]).
  all: try (injection I as <- <- <- <- <-; rewrite X;
            repeat (split; [reflexivity|]);
            eexists; split; [right; right; left; reflexivity|];
            repeat split).
  all: injection I as <-; rewrite X; split; [split; reflexivity|];
    intros _; eexists; right; right; right; left; reflexivity.
Qed.

(** X4.  An issue that passes the check but whose metadata has no title
    that is a string (no title, a number, a list, or metadata that is a
    scalar or a list) makes the run throw a [TypeError] after the user
    lookup, or after the list of pull requests: nothing is committed, no
    pull request is created and no comment is posted. *)
Theorem untitled_submission_throws context issue w :
  accepted_ context issue ->
  (forall s, get_prop (p_info (parsed_ issue)) (u16 "title") <> JStr s) ->
  exists w',
    action_ context w = (Throw TypeError, w')
    /\ (calls w' = calls w ++ [Call.UsersGetByUsername (issue_user_login issue)]
        \/ calls w' = calls w ++ [Call.UsersGetByUsername
                                    (issue_user_login issue);
                                  Call.PullsList])
    /\ comments w' = comments w /\ pulls w' = pulls w.
Proof.
  intros [T I] N.
  rewrite (action_of_trigger _ _ _ _ _ _ _ _ _ _ T).
  fold (parsed_ issue). rewrite I. cbv zeta.
  destruct (fill_author (p_info (parsed_ issue)) (issue_user_login issue)
              (found_user issue w)) as [info'|[]] eqn:F.
  2:{ rewrite (publish_throws_author _ _ _ _ _ _ _ _ _ _ _ _ _ _ _ F).
      eexists. split; [reflexivity|]. simpl. auto. }
  assert (D : dir_of slug (issue_number context) info' = Throw TypeError).
  { unfold dir_of.
    rewrite (fill_author_keeps _ _ _ _ (u16 "title") F) by reflexivity.
    destruct (get_prop (p_info (parsed_ issue)) (u16 "title")) eqn:E;
      try reflexivity.
    exfalso. exact (N _ eq_refl). }
  rewrite (publish_throws_dir _ _ _ _ _ _ _ _ _ _ _ _ _ _ _ _ F D).
  eexists. split; [reflexivity|]. simpl. rewrite <- app_assoc. auto.
Qed.

Lemma getCommentRange_blank text key :
  (forall g, exec (comment_range_at key) text = Some g ->
             forallb is_ws g = true) ->
  getCommentRange text key = None \/ getCommentRange text key = Some [].
Proof.
  intros H. unfold getCommentRange.
  destruct (exec (comment_range_at key) text) as [[|c g]|];
    [left; reflexivity | right | left; reflexivity].
  rewrite (trim_blank _ (H _ eq_refl)). reflexivity.
Qed.

(** X5.  When the question markers of the body enclose nothing or white
    space only, or when the body has no pair of question markers,
    [getCommentRange] returns null or the empty string and the run is the
    posting of the invalid-format message.  So it is for a body that is
    null or empty. *)
Theorem blank_question_is_invalid context issue w :
  triggers context issue ->
  let body := or_empty (issue_body issue) in
  let rejected :=
    action_ context w
    = updateComment context
        (issue_invalid_reply (Messages (locale_of issue))) w in
  ((forall g, exec (comment_range_at (u16 "question")) body = Some g ->
              forallb is_ws g = true) ->
   (getCommentRange body (u16 "question") = None
    \/ getCommentRange body (u16 "question") = Some [])
   /\ rejected)
  /\ (issue_body issue = None \/ issue_body issue = Some [] -> rejected).
Proof.
  intros T body rejected. subst body rejected.
  assert (G : (forall g, exec (comment_range_at (u16 "question"))
                           (or_empty (issue_body issue)) = Some g ->
                         forallb is_ws g = true) ->
              (getCommentRange (or_empty (issue_body issue)) (u16 "question")
               = None
               \/ getCommentRange (or_empty (issue_body issue))
                    (u16 "question") = Some [])
              /\ action_ context w
                 = updateComment context
                     (issue_invalid_reply (Messages (locale_of issue))) w).
  { intros H. pose proof (getCommentRange_blank _ _ H) as B.
    split; [exact B|].
    rewrite (action_of_trigger _ _ _ _ _ _ _ _ _ _ T).
    assert (I : invalid (parsed_ issue) = true).
    { unfold invalid, parsed_of, parse. cbn [p_question].
      destruct B as [-> | ->]; reflexivity. }
    fold (parsed_ issue). rewrite I. reflexivity. }
  split; [exact G|].
  intros E. apply G. intros g.
  destruct E as [-> | ->]; discriminate.
Qed.

Lemma shape_commit_once context w new a :
  shape_ context w new ->
  In (Call.PushCommit a) new -> pushed new = [a].
Proof.
  intros S Ia.
  destruct S; posts_cases; in_cases Ia; injection Ia as <-; reflexivity.
Qed.

(** X17.  A run calls [PushCommit] at most once: the commit of a run is
    the only one in its trace.  It is on the branch [pulls/no] over
    [master], and it is attributed to the account that opened the issue,
    whatever author the metadata names: the name is the one of the
    profile, and the address is made of the identifier and the login of
    that profile. *)
Theorem commit_is_attributed_to_the_reporter context w new commit :
  calls (snd (action_ context w)) = calls w ++ new ->
  In (Call.PushCommit commit) new ->
  exists issue u,
    triggers context issue
    /\ In u (users w) /\ user_login u = issue_user_login issue
    /\ push_author_name commit = user_name u
    /\ push_author_email commit
       = num_to_string (user_id u) ++ u16 "+" ++ issue_user_login issue
         ++ u16 "@users.noreply.github.com"
    /\ push_base commit = u16 "master"
    /\ push_head commit = u16 "pulls/" ++ num_to_string (issue_number context)
    /\ pushed new = [commit].
Proof.
  intros C I.
  destruct (action_shape_ context w) as (new' & C' & S).
  rewrite C in C'. apply app_inv_head in C'. subst new'.
  destruct (shape_commit _ _ _ _ S I) as (issue & info' & dir & u & A & F & D
                                          & U & E).
  unfold found_user in U. apply find_some in U. destruct U as [Iu Lu].
  apply jseqb_eq in Lu.
  exists issue, u. split; [exact (proj1 A)|]. split; [exact Iu|].
  split; [exact Lu|]. subst commit.
  split; [reflexivity|]. split; [simpl; rewrite Lu; reflexivity|].
  split; [reflexivity|]. split; [reflexivity|].
  exact (shape_commit_once _ _ _ _ S I).
Qed.

End Publishing.

(** ** What the extractors return *)

Section Layout.

Local Open Scope nat_scope.

Lemma index_of_None pat s :
  index_of pat s = None <-> forall x y, s <> x ++ pat ++ y.
Proof.
  unfold index_of. split.
  - destruct (lazy_any (lit pat) s) as [[p r]|] eqn:E; [discriminate|].
    intros _ x y ->. exact (lazy_lit_complete _ _ _ E).
  - intros H. destruct (lazy_any (lit pat) s) as [[p r]|] eqn:E;
      [|reflexivity].
    destruct (lazy_any_Some _ _ _ _ _ E) as (post & -> & L & _).
    apply lit_Some in L. subst post. exfalso. exact (H _ _ eq_refl).
Qed.

(** When [pat] first occurs in [x ++ pat] at its end, it occurs in no text
    that starts with [x ++ pat] before that. *)
Lemma index_of_first pat x r x' y' :
  index_of pat (x ++ pat) = Some (length x) ->
  x ++ pat ++ r = x' ++ pat ++ y' -> length x <= length x'.
Proof.
  unfold index_of. intros H E.
  destruct (lazy_any (lit pat) (x ++ pat)) as [[p r0]|] eqn:L;
    [|discriminate].
  injection H as H.
  destruct (lazy_any_Some _ _ _ _ _ L) as (post & E0 & _ & Min).
  destruct (Nat.le_gt_cases (length x) (length x')) as [G|G]; [exact G|].
  exfalso. rewrite !app_assoc in E.
  destruct (app_eq_prefix _ _ _ _ _ E) as (l & E1 & _).
  { rewrite !length_app. lia. }
  rewrite <- app_assoc in E1.
  pose proof (Min x' (pat ++ l) E1 ltac:(lia)) as F.
  rewrite lit_app in F. discriminate.
Qed.

Lemma first3_of_indices A B C pre mid g post :
  index_of A (pre ++ A) = Some (length pre) ->
  index_of B (mid ++ B) = Some (length mid) ->
  index_of C (g ++ C) = Some (length g) ->
  first3 A B C (pre ++ A ++ mid ++ B ++ g ++ C ++ post) pre mid g post.
Proof.
  intros HA HB HC. split; [reflexivity|].
  intros pre' mid' g' post' M. unfold match3 in M.
  pose proof (index_of_first _ _ _ _ _ HA M) as L1.
  destruct (Nat.eq_dec (length pre) (length pre')) as [E1|N1];
    [right; split; [exact E1|] | left; lia].
  destruct (app_eq_length _ _ _ _ _ M E1) as [_ M1].
  apply app_inv_head in M1.
  pose proof (index_of_first _ _ _ _ _ HB M1) as L2.
  destruct (Nat.eq_dec (length mid) (length mid')) as [E2|N2];
    [right; split; [exact E2|] | left; lia].
  destruct (app_eq_length _ _ _ _ _ M1 E2) as [_ M2].
  apply app_inv_head in M2.
  exact (index_of_first _ _ _ _ _ HC M2).
Qed.

Lemma first2_of_indices A C pre g post :
  index_of A (pre ++ A) = Some (length pre) ->
  index_of C (g ++ C) = Some (length g) ->
  first2 A C (pre ++ A ++ g ++ C ++ post) pre g post.
Proof.
  intros HA HC. split; [reflexivity|].
  intros pre' g' post' M. unfold match2 in M.
  pose proof (index_of_first _ _ _ _ _ HA M) as L1.
  destruct (Nat.eq_dec (length pre) (length pre')) as [E1|N1];
    [right; split; [exact E1|] | left; lia].
  destruct (app_eq_length _ _ _ _ _ M E1) as [_ M1].
  apply app_inv_head in M1.
  exact (index_of_first _ _ _ _ _ HC M1).
Qed.

Lemma getCommentRange_of_first text key pre g post :
  first2 (u16 "<!--" ++ key ++ u16 "-start-->")
    (u16 "<!--" ++ key ++ u16 "-end-->") text pre g post ->
  getCommentRange text key
  = match g with [] => None | _ :: _ => Some (trim g) end.
Proof.
  intros F. unfold getCommentRange, comment_range_at.
  destruct (exec _ text) as [g0|] eqn:E.
  - destruct (exec_at2_Some _ _ _ _ E) as (pre0 & post0 & F0).
    destruct (first2_unique _ _ _ _ _ _ _ _ _ F0 F) as (_ & -> & _).
    reflexivity.
  - exfalso. destruct F as [M _].
    exact (exec_at2_None _ _ _ E _ _ _ M).
Qed.

(** X6.  Writing a section and reading it back: in a text made of a
    heading, anything, an opening fence, a content and a closing fence,
    with any text before and after, [getCodeBlock] returns the trimmed
    content (null when the content is empty), provided the heading does
    not occur earlier in the text, the opening fence does not occur between
    the heading and its place, and the closing fence does not occur in the
    content.  The title and the language tag stand for themselves in a
    pattern. *)
Theorem getCodeBlock_reads_back pre mid g post title lang :
  literal title = true -> literal lang = true ->
  let A := u16 "## " ++ title in
  let B := u16 "```" ++ lang in
  let C := u16 "```" in
  index_of A (pre ++ A) = Some (length pre) ->
  index_of B (mid ++ B) = Some (length mid) ->
  index_of C (g ++ C) = Some (length g) ->
  getCodeBlock (pre ++ A ++ mid ++ B ++ g ++ C ++ post) title lang
  = match g with [] => None | _ :: _ => Some (trim g) end.
Proof.
  intros _ _ A B C HA HB HC.
  apply (getCodeBlock_of_first _ _ _ pre mid g post).
  exact (first3_of_indices _ _ _ _ _ _ post HA HB HC).
Qed.

(** X7.  Writing a comment range and reading it back: in a text made of
    the start marker, a content and the end marker, with any text before
    and after, [getCommentRange] returns the trimmed content (null when the
    content is empty), provided the start marker does not occur earlier in
    the text and the end marker does not occur in the content.  The key
    stands for itself in a pattern. *)
Theorem getCommentRange_reads_back pre g post key :
  literal key = true ->
  let A := u16 "<!--" ++ key ++ u16 "-start-->" in
  let C := u16 "<!--" ++ key ++ u16 "-end-->" in
  index_of A (pre ++ A) = Some (length pre) ->
  index_of C (g ++ C) = Some (length g) ->
  getCommentRange (pre ++ A ++ g ++ C ++ post) key
  = match g with [] => None | _ :: _ => Some (trim g) end.
Proof.
  intros _ A C HA HC. apply (getCommentRange_of_first _ _ pre g post).
  exact (first2_of_indices _ _ _ _ post HA HC).
Qed.

Lemma trim_last s : untrimmed_head (rev (trim s)) = false.
Proof.
  unfold trim, trim_end. rewrite rev_involutive. apply trim_start_head.
Qed.

Lemma first2_marker_free A C text pre g post :
  first2 A C text pre g post -> index_of C g = None \/ C = [].
Proof.
  intros [M F]. destruct C as [|c C]; [right; reflexivity | left].
  apply index_of_None. intros x y ->.
  assert (M' : match2 A (c :: C) text pre x (y ++ (c :: C) ++ post)).
  { unfold match2 in *. rewrite M. rewrite <- !app_assoc. reflexivity. }
  specialize (F _ _ _ M'). rewrite !length_app in F. simpl in F. lia.
Qed.

(** X8.  A text that an extractor returns is a part of the body that has
    no white space at either end; the text of a code block contains no
    closing fence, and the text of a comment range contains no end
    marker.  The title, the language tag and the key stand for themselves
    in a pattern. *)
Theorem extracted_text_is_clean text title lang key out :
  literal title = true -> literal lang = true -> literal key = true ->
  (getCodeBlock text title lang = Some out ->
   (exists a b, text = a ++ out ++ b)
   /\ untrimmed_head out = false /\ untrimmed_head (rev out) = false
   /\ index_of (u16 "```") out = None)
  /\ (getCommentRange text key = Some out ->
      (exists a b, text = a ++ out ++ b)
      /\ untrimmed_head out = false /\ untrimmed_head (rev out) = false
      /\ index_of (u16 "<!--" ++ key ++ u16 "-end-->") out = None).
Proof.
  intros _ _ _. split.
  - intros H. pose proof (getCodeBlock_fence_free _ _ _ _ H) as FF.
    unfold getCodeBlock, code_block_at in H.
    destruct (exec _ text) as [[|c g]|] eqn:E; try discriminate.
    injection H as <-.
    destruct (exec_at3_Some _ _ _ _ _ E) as (pre & mid & post & [M _]).
    destruct (trim_split (c :: g)) as (w1 & w2 & S & _).
    split; [|split; [apply trim_head|split; [apply trim_last|]]].
    + unfold match3 in M. rewrite S in M. rewrite M.
      exists (pre ++ (u16 "## " ++ title) ++ mid ++ (u16 "```" ++ lang) ++ w1),
             (w2 ++ u16 "```" ++ post).
      rewrite <- !app_assoc. reflexivity.
    + apply index_of_None. exact FF.
  - intros H. unfold getCommentRange, comment_range_at in H.
    destruct (exec _ text) as [[|c g]|] eqn:E; try discriminate.
    injection H as <-.
    destruct (exec_at2_Some _ _ _ _ E) as (pre & post & F).
    destruct (trim_split (c :: g)) as (w1 & w2 & S & _).
    split; [|split; [apply trim_head|split; [apply trim_last|]]].
    + destruct F as [M _]. unfold match2 in M. rewrite S in M. rewrite M.
      exists (pre ++ (u16 "<!--" ++ key ++ u16 "-start-->") ++ w1),
             (w2 ++ (u16 "<!--" ++ key ++ u16 "-end-->") ++ post).
      rewrite <- !app_assoc. reflexivity.
    + destruct (first2_marker_free _ _ _ _ _ _ F) as [I|I];
        [|destruct key; discriminate I].
      apply index_of_None. intros x y Ex.
      apply (proj1 (index_of_None _ _) I (w1 ++ x) (y ++ w2)).
      rewrite S, Ex. rewrite <- !app_assoc. reflexivity.
Qed.

End Layout.

(** ** The title before the slug, and the time stamp *)

Section Cleaning.

Local Open Scope nat_scope.

Lemma close_tag_None_strip s :
  close_tag s = None -> close_tag (strip_tags_from 0 s) = None.
Proof.
  induction s as [|c s IH]; simpl; [reflexivity|].
  destruct (is_line_terminator c) eqn:L.
  - intros _. destruct (N.eqb_spec c 60) as [->|_]; [discriminate L|].
    simpl. rewrite L. reflexivity.
  - destruct (close_tag s) as [n|] eqn:E; [discriminate|].
    destruct (N.eqb c 62) eqn:G; [discriminate|]. intros _.
    destruct (N.eqb c 60); simpl; rewrite L, (IH eq_refl), G; reflexivity.
Qed.

Lemma strip_tags_from_idem n s :
  strip_tags_from 0 (strip_tags_from n s) = strip_tags_from n s.
Proof.
  revert n; induction s as [|c s IH]; intros n; simpl; [reflexivity|].
  destruct n as [|n]; [|apply IH].
  destruct (N.eqb c 60) eqn:L.
  - destruct (close_tag s) as [k|] eqn:E; [apply IH|].
    simpl. rewrite L, (close_tag_None_strip _ E), IH. reflexivity.
  - simpl. rewrite L, IH. reflexivity.
Qed.

Lemma strip_tags_from_length n s :
  length (strip_tags_from n s) <= length s.
Proof.
  revert n; induction s as [|c s IH]; intros n; simpl; [lia|].
  destruct n as [|n]; [|specialize (IH n); lia].
  destruct (N.eqb c 60).
  - destruct (close_tag s) as [k|]; [specialize (IH k); lia|].
    specialize (IH 0). simpl. lia.
  - specialize (IH 0). simpl. lia.
Qed.

Lemma strip_tags_from_In n s c :
  In c (strip_tags_from n s) -> In c s.
Proof.
  revert n; induction s as [|x s IH]; intros n; simpl; [auto|].
  destruct n as [|n]; [|intros H; right; exact (IH _ H)].
  destruct (N.eqb x 60).
  - destruct (close_tag s) as [k|]; [intros H; right; exact (IH _ H)|].
    intros [H|H]; [left; exact H | right; exact (IH _ H)].
  - intros [H|H]; [left; exact H | right; exact (IH _ H)].
Qed.

Lemma undot_tests c :
  is_line_terminator (undot c) = is_line_terminator c
  /\ N.eqb (undot c) 62 = N.eqb c 62 /\ N.eqb (undot c) 60 = N.eqb c 60
  /\ undot (undot c) = undot c.
Proof.
  unfold undot. destruct (N.eqb_spec c 46) as [->|N]; [repeat split|].
  repeat split. destruct (N.eqb_spec c 46); [contradiction | reflexivity].
Qed.

Lemma close_tag_replace_dots s : close_tag (replace_dots s) = close_tag s.
Proof.
  unfold replace_dots. fold undot.
  induction s as [|c s IH]; simpl; [reflexivity|].
  destruct (undot_tests c) as (-> & -> & _). rewrite IH. reflexivity.
Qed.

Lemma strip_tags_replace_dots n s :
  strip_tags_from n (replace_dots s) = replace_dots (strip_tags_from n s).
Proof.
  revert n; induction s as [|c s IH]; intros n; [reflexivity|].
  change (replace_dots (c :: s)) with (undot c :: replace_dots s).
  cbn [strip_tags_from]. destruct n as [|n]; [|apply IH].
  destruct (undot_tests c) as (_ & _ & -> & _).
  rewrite close_tag_replace_dots.
  destruct (N.eqb c 60); [destruct (close_tag s); [apply IH|]|];
    rewrite IH; reflexivity.
Qed.

Lemma replace_dots_idem s : replace_dots (replace_dots s) = replace_dots s.
Proof.
  unfold replace_dots. fold undot. rewrite map_map. apply map_ext.
  intros c. apply undot_tests.
Qed.

(** X9.  Cleaning a title (dots to hyphens, then the spans from [<] to
    [>] removed) leaves nothing more to clean: cleaning the result again
    changes nothing.  The two replacements can be done in either order.
    The result is no longer than the title, contains only characters of
    the title or hyphens, and no dot.  Hence a title and its cleaned form
    get the same directory. *)
Theorem title_cleaning_is_idempotent t :
  let clean := fun s => strip_tags (replace_dots s) in
  clean (clean t) = clean t
  /\ replace_dots (strip_tags t) = clean t
  /\ length (clean t) <= length t
  /\ ~ In 46%N (clean t)
  /\ (forall c, In c (clean t) -> In c t \/ c = 45%N)
  /\ forall slug no difficulty,
       directory slug no difficulty (clean t) = directory slug no difficulty t.
Proof.
  intros clean. subst clean. cbv beta.
  assert (I : strip_tags (replace_dots (strip_tags (replace_dots t)))
              = strip_tags (replace_dots t)).
  { unfold strip_tags. rewrite <- strip_tags_replace_dots, replace_dots_idem.
    apply strip_tags_from_idem. }
  split; [exact I|]. split; [|split; [|split; [|split]]].
  - unfold strip_tags. symmetry. apply strip_tags_replace_dots.
  - unfold strip_tags, replace_dots.
    pose proof (strip_tags_from_length 0 (replace_dots t)) as L.
    unfold replace_dots in L. rewrite length_map in L. exact L.
  - intros H. apply strip_tags_from_In in H.
    exact (replace_dots_no_dot _ H).
  - intros c H. apply strip_tags_from_In in H. unfold replace_dots in H.
    apply in_map_iff in H as (x & E & Hx).
    destruct (N.eqb x 46); [right; congruence | left; congruence].
  - intros slug no difficulty. unfold directory. rewrite I. reflexivity.
Qed.

(** X10.  The time stamp badge reads the clock twice and changes nothing
    else.  Its label is the first reading; the number in its address is
    the second reading in seconds, rounded to the nearest second, a half
    going up. *)
Theorem timestamp_badge_rounds_to_nearest toISOString w :
  exists seconds,
    getTimestampBadge toISOString w
    = (Ok (u16 "![" ++ toISOString (clock w (ticks w))
           ++ u16 "](https://img.shields.io/date/" ++ num_to_string seconds
           ++ u16 "?color=green&label=)"),
       after_badge w)
    /\ (1000 * seconds - 500 <= clock w (S (ticks w)) < 1000 * seconds + 500)%Z.
Proof.
  exists (Math_round_div_1000 (clock w (S (ticks w)))). split; [reflexivity|].
  unfold Math_round_div_1000.
  pose proof (Z.div_mod (clock w (S (ticks w)) + 500) 1000 ltac:(lia)) as D.
  pose proof (Z.mod_pos_bound (clock w (S (ticks w)) + 500) 1000 ltac:(lia))
    as B.
  lia.
Qed.

End Cleaning.

(** ** The repository over runs *)

Section Repository.

Variable safeLoad : jsstring -> option jsval.
Variable safeDump : jsval -> jsstring.
Variable slug : jsstring -> jsstring.
Variable playground :
  Z -> jsval -> jsstring -> jsstring -> jsstring -> locale -> jsstring.
Variable toBadgeLink :
  jsstring -> jsstring -> jsstring -> jsstring -> jsstring -> jsstring.
Variable t : locale -> jsstring -> jsstring.
Variable toISOString : Z -> jsstring.

Local Notation "'action_'" :=
  (action safeLoad safeDump slug playground toBadgeLink t toISOString).
Local Notation "'publish_'" :=
  (publish safeDump slug playground toBadgeLink t toISOString).
Local Notation "'parsed_'" := (parsed_of safeLoad).
Local Notation "'accepted_'" := (accepted safeLoad).
Local Notation "'run_all_'" :=
  (run_all safeLoad safeDump slug playground toBadgeLink t toISOString).

Lemma same_repository_refl w : same_repository w w.
Proof. repeat split. Qed.

Lemma same_repository_record c w : same_repository w (record c w).
Proof. repeat split. Qed.

Lemma same_repository_trans w1 w2 w3 :
  same_repository w1 w2 -> same_repository w2 w3 -> same_repository w1 w3.
Proof.
  unfold same_repository. intros (A & B & C & D) (A' & B' & C' & D').
  repeat split; congruence.
Qed.

Lemma publish_updates_world context issue locale info q tm ts w info' dir u p :
  fill_author info (issue_user_login issue) (found_user issue w) = Ok info' ->
  dir_of slug (issue_number context) info' = Ok dir ->
  found_user issue w = Some u ->
  existing_pull (issue_number context) (filter pull_open (pulls w)) = Some p ->
  exists body w0,
    same_repository w w0
    /\ publish_ context issue locale info q tm ts w
       = updateComment context body w0.
Proof.
  unfold found_user. intros H D U X.
  unfold publish, bind at 1 2 3 4 5, github.users_getByUsername, lift.
  simpl. rewrite H. simpl. rewrite D. simpl. rewrite U, X.
  match goal with
  | |- context [bind (createMessageBody _ _ ?b ?n) _ ?w0] =>
      destruct (createMessageBody_run toISOString locale b n w0)
        as (stamp & E)
  end.
  unfold bind. rewrite E. eexists _, _. split; [|reflexivity].
  repeat split.
Qed.

Lemma publish_creates_world context issue locale info q tm ts w info' dir u :
  fill_author info (issue_user_login issue) (found_user issue w) = Ok info' ->
  dir_of slug (issue_number context) info' = Ok dir ->
  found_user issue w = Some u ->
  existing_pull (issue_number context) (filter pull_open (pulls w)) = None ->
  exists body w0 w1,
    same_repository w w0
    /\ same_repository
         (snd (github.pulls_create (u16 "master")
                 (u16 "pulls/" ++ num_to_string (issue_number context))
                 (pull_title_of (issue_number context) info')
                 (pull_body_of (issue_number context))
                 [u16 "auto-generated"] w0)) w1
    /\ publish_ context issue locale info q tm ts w
       = updateComment context body w1.
Proof.
  unfold found_user. intros H D U X.
  unfold publish, bind at 1 2 3 4 5 6, github.users_getByUsername, lift.
  simpl. rewrite H. simpl. rewrite D. simpl. rewrite U, X.
  unfold bind at 1, github.pulls_create. simpl.
  match goal with
  | |- context [bind (createMessageBody _ _ ?b ?n) _ ?w0] =>
      destruct (createMessageBody_run toISOString locale b n w0)
        as (stamp & E)
  end.
  unfold bind. rewrite E.
  exists (replace_first (u16 "{0}") (num_to_string (next_number w))
            (issue_update_reply (Messages locale))
          ++ [10; 10]%N ++ stamp ++ u16 "  "
          ++ playgroundBadge_of playground toBadgeLink t locale
               (issue_number context) info' q tm ts).
  exists (record
            (Call.PushCommit
               (commit_of safeDump locale (issue_number context) info' dir u
                  q tm ts true))
            (record Call.PullsList
               (record (Call.UsersGetByUsername (issue_user_login issue)) w))).
  eexists. split; [repeat split|]. split; [|reflexivity].
  repeat split.
Qed.

Lemma action_outcome context w : outcome context w (snd (action_ context w)).
Proof.
  destruct (payload_issue context) as [issue|] eqn:P.
  2:{ rewrite action_no_trigger.
      - apply outcome_quiet, same_repository_refl.
      - intros issue [X _]. congruence. }
  destruct (includes (label_names (issue_labels issue)) (u16 "new-challenge"))
    eqn:L.
  2:{ rewrite action_no_trigger.
      - apply outcome_quiet, same_repository_refl.
      - intros issue' [X Y]. congruence. }
  assert (T : triggers context issue) by (split; assumption).
  rewrite (action_of_trigger _ _ _ _ _ _ _ _ _ _ T). fold (parsed_ issue).
  destruct (invalid (parsed_ issue)) eqn:I.
  - apply outcome_notified, same_repository_refl.
  - cbv zeta.
    destruct (fill_author (p_info (parsed_ issue)) (issue_user_login issue)
                (found_user issue w)) as [info'|e] eqn:F.
    2:{ rewrite (publish_throws_author _ _ _ _ _ _ _ _ _ _ _ _ _ _ _ F).
        apply outcome_quiet. repeat split. }
    destruct (dir_of slug (issue_number context) info') as [dir|e] eqn:D.
    2:{ rewrite (publish_throws_dir _ _ _ _ _ _ _ _ _ _ _ _ _ _ _ _ F D).
        apply outcome_quiet. repeat split. }
    destruct (found_user issue w) as [u|] eqn:U; rewrite <- U in F.
    2:{ rewrite (publish_throws_user _ _ _ _ _ _ _ _ _ _ _ _ _ _ _ _ F D U).
        apply outcome_quiet. repeat split. }
    destruct (existing_pull (issue_number context)
                (filter pull_open (pulls w))) as [p|] eqn:X.
    + destruct (publish_updates_world context issue (locale_of issue)
                  (p_info (parsed_ issue)) (p_question (parsed_ issue))
                  (p_template (parsed_ issue)) (p_tests (parsed_ issue))
                  w info' dir u p F D U X) as (body & w0 & S & ->).
      apply outcome_notified. exact S.
    + destruct (publish_creates_world context issue (locale_of issue)
                  (p_info (parsed_ issue)) (p_question (parsed_ issue))
                  (p_template (parsed_ issue)) (p_tests (parsed_ issue))
                  w info' dir u F D U X) as (body & w0 & w1 & S & S1 & ->).
      eapply outcome_created; eassumption.
Qed.

(** *** The number in a title *)

Lemma uint_digits d c :
  In c (u16 (NilEmpty.string_of_uint d)) -> (48 <= c <= 57)%N.
Proof.
  unfold u16. induction d; simpl; try contradiction;
    (intros [<-|H]; [vm_compute; split; discriminate | exact (IHd H)]).
Qed.

Lemma num_to_string_no_space z : ~ In 32%N (num_to_string z).
Proof.
  unfold num_to_string, NilZero.string_of_int, NilZero.string_of_uint.
  intros H.
  assert (G : forall d, In 32%N (u16 match d with
                                      | Decimal.Nil => "0"%string
                                      | _ => NilEmpty.string_of_uint d
                                      end) -> False).
  { intros d I. destruct d; try (apply uint_digits in I; lia).
    simpl in I. destruct I as [I|[]]. discriminate I. }
  destruct (Z.to_int z) as [d|d].
  - exact (G d H).
  - change (In 32%N (45%N :: u16 match d with
                                 | Decimal.Nil => "0"%string
                                 | _ => NilEmpty.string_of_uint d
                                 end)) in H.
    destruct H as [H|H]; [discriminate H | exact (G d H)].
Qed.

Lemma u16_inj a b : u16 a = u16 b -> a = b.
Proof.
  unfold u16. intros H.
  rewrite <- (string_of_list_ascii_of_string a),
          <- (string_of_list_ascii_of_string b).
  f_equal. revert H.
  generalize (list_ascii_of_string a) (list_ascii_of_string b).
  intros l; induction l as [|x l IH]; intros [|y m]; simpl;
    try discriminate; [reflexivity|].
  intros [= E1 E2]. f_equal; [|exact (IH _ E2)].
  rewrite <- (ascii_N_embedding x), <- (ascii_N_embedding y), E1.
  reflexivity.
Qed.

Lemma num_to_string_inj z z' : num_to_string z = num_to_string z' -> z = z'.
Proof.
  unfold num_to_string. intros H. apply u16_inj in H.
  apply DecimalZ.to_int_inj.
  assert (N : forall x, Z.to_int x <> Decimal.Pos Decimal.Nil
                        /\ Z.to_int x <> Decimal.Neg Decimal.Nil).
  { intros [|p|p]; simpl; split; try discriminate;
      intros [= E]; exact (Unsigned.to_uint_nonnil p E). }
  assert (S : Some (Z.to_int z) = Some (Z.to_int z')).
  { rewrite <- (NilZero.isi (Z.to_int z)) by apply N.
    rewrite <- (NilZero.isi (Z.to_int z')) by apply N.
    rewrite H. reflexivity. }
  congruence.
Qed.

Lemma split_at_space a b x y :
  ~ In 32%N a -> ~ In 32%N b -> a ++ 32%N :: x = b ++ 32%N :: y -> a = b.
Proof.
  revert b; induction a as [|c a IH]; intros [|e b] Ha Hb E; simpl in *.
  - reflexivity.
  - injection E as E _. exfalso. apply Hb. left. congruence.
  - injection E as E _. exfalso. apply Ha. left. congruence.
  - injection E as -> E. f_equal. apply (IH b); auto.
Qed.

(** The title of the pull request of one issue is not taken for the title
    of the pull request of another. *)
Lemma pull_title_number no no' info :
  startsWith (pull_title_of no info)
    (u16 "#" ++ num_to_string no' ++ u16 " ") = true ->
  no' = no.
Proof.
  intros H. apply startsWith_spec in H as [rest E].
  unfold pull_title_of in E. rewrite <- !app_assoc in E.
  simpl in E. injection E as E.
  symmetry. apply num_to_string_inj.
  exact (split_at_space _ _ _ _ (num_to_string_no_space _)
           (num_to_string_no_space _) E).
Qed.

Lemma pull_title_own no info :
  startsWith (pull_title_of no info)
    (u16 "#" ++ num_to_string no ++ u16 " ") = true.
Proof.
  apply startsWith_spec. unfold pull_title_of.
  exists (u16 "- " ++ to_string (get_prop info (u16 "title"))).
  rewrite <- !app_assoc. reflexivity.
Qed.

(** *** One run *)

Lemma updateComment_keeps context body w :
  users (snd (updateComment context body w)) = users w
  /\ pulls (snd (updateComment context body w)) = pulls w.
Proof.
  destruct (automation_comments (issue_number context) w) as [|c l] eqn:A.
  - rewrite (updateComment_missing _ body _ A). split; reflexivity.
  - rewrite (updateComment_found _ body _ _ _ A). split; reflexivity.
Qed.

Lemma updateComment_count context body w no' :
  (length (automation_comments no' (snd (updateComment context body w)))
   <= Nat.max 1 (length (automation_comments no' w)))%nat.
Proof.
  pose proof (Nat.le_max_l 1 (length (automation_comments no' w))) as M1.
  pose proof (Nat.le_max_r 1 (length (automation_comments no' w))) as M2.
  revert M1 M2.
  generalize (Nat.max 1 (length (automation_comments no' w))) as m.
  intros m M1 M2.
  destruct (automation_comments (issue_number context) w) as [|c l] eqn:A.
  - rewrite (updateComment_missing _ body _ A).
    unfold automation_comments in *. simpl. rewrite !filter_app. simpl.
    destruct (Z.eqb_spec (issue_number context) no') as [<-|N]; simpl.
    + rewrite A. simpl. exact M1.
    + rewrite app_nil_r. exact M2.
  - rewrite (updateComment_found _ body _ _ _ A).
    unfold automation_comments in *. simpl.
    rewrite !filter_map_same, length_map; [exact M2 | |].
    + intros x. rewrite set_body_login. reflexivity.
    + intros x. rewrite set_body_issue. reflexivity.
Qed.

Lemma same_repository_comments w w' no' :
  same_repository w w' ->
  automation_comments no' w' = automation_comments no' w.
Proof.
  intros (_ & _ & C & _). unfold automation_comments. rewrite C.
  reflexivity.
Qed.

Lemma same_repository_pulls w w' no' :
  same_repository w w' -> automation_pulls no' w' = automation_pulls no' w.
Proof.
  intros (_ & P & _ & _). unfold automation_pulls. rewrite P. reflexivity.
Qed.

Lemma outcome_comments context w w' no' :
  outcome context w w' ->
  (length (automation_comments no' w')
   <= Nat.max 1 (length (automation_comments no' w)))%nat.
Proof.
  intros [w1 S|body w0 S|body info' w0 w1 S X S1].
  - rewrite (same_repository_comments _ _ _ S). lia.
  - rewrite <- (same_repository_comments _ _ no' S).
    apply updateComment_count.
  - pose proof (updateComment_count context body w1 no') as H.
    rewrite (same_repository_comments _ _ no' S1) in H.
    unfold automation_comments in H at 2. simpl in H.
    fold (automation_comments no' w0) in H.
    rewrite (same_repository_comments _ _ no' S) in H. exact H.
Qed.

Lemma existing_pull_automation_pulls no w :
  existing_pull no (filter pull_open (pulls w))
  = match automation_pulls no w with p :: _ => Some p | [] => None end.
Proof. unfold existing_pull, automation_pulls. apply find_filter. Qed.

Lemma automation_pulls_of_pulls w w' no' :
  pulls w' = pulls w -> automation_pulls no' w' = automation_pulls no' w.
Proof. intros P. unfold automation_pulls. rewrite P. reflexivity. Qed.

Lemma automation_pulls_added w w' no' p :
  pulls w' = pulls w ++ [p] -> pull_open p = true -> pull_login p = bot ->
  automation_pulls no' w'
  = automation_pulls no' w
    ++ (if startsWith (pull_title p) (u16 "#" ++ num_to_string no' ++ u16 " ")
        then [p] else []).
Proof.
  intros P O L. unfold automation_pulls. rewrite P, !filter_app.
  f_equal. cbn [filter]. rewrite O. cbn [filter]. rewrite L, jseqb_refl.
  cbn [andb]. destruct (startsWith _ _); reflexivity.
Qed.

Lemma outcome_pulls context w w' no' :
  outcome context w w' ->
  (length (automation_pulls no' w')
   <= Nat.max 1 (length (automation_pulls no' w)))%nat.
Proof.
  intros [w1 S|body w0 S|body info' w0 w1 S X S1].
  - rewrite (same_repository_pulls _ _ _ S). lia.
  - rewrite (automation_pulls_of_pulls _ _ no'
               (proj2 (updateComment_keeps context body w0))).
    rewrite (same_repository_pulls _ _ _ S). lia.
  - rewrite (automation_pulls_of_pulls _ _ no'
               (proj2 (updateComment_keeps context body w1))).
    rewrite (same_repository_pulls _ _ no' S1).
    erewrite (automation_pulls_added w0 _ no');
      [| reflexivity | reflexivity | reflexivity].
    rewrite (same_repository_pulls _ _ no' S).
    rewrite length_app. cbn [pull_title].
    rewrite existing_pull_automation_pulls in X.
    destruct (startsWith (pull_title_of (issue_number context) info')
                (u16 "#" ++ num_to_string no' ++ u16 " ")) eqn:E.
    + apply pull_title_number in E. subst no'.
      destruct (automation_pulls (issue_number context) w);
        [cbn [length]; lia | discriminate X].
    + cbn [length]. lia.
Qed.

(** X11.  A run leaves the users as they are and never removes, closes or
    changes a pull request.  It adds at most one, and only when it found
    none for the issue: an open pull request of the bot from the branch
    [pulls/no], numbered with the next number, whose title starts with
    [#no - ]. *)
Theorem action_only_adds_a_pull_request context w :
  let no := issue_number context in
  let w' := snd (action_ context w) in
  users w' = users w
  /\ (pulls w' = pulls w
      \/ exists title,
           existing_pull no (filter pull_open (pulls w)) = None
           /\ pulls w'
              = pulls w
                ++ [{| pull_number := next_number w; pull_login := bot;
                       pull_title :=
                         u16 "#" ++ num_to_string no ++ u16 " - " ++ title;
                       pull_head := u16 "pulls/" ++ num_to_string no;
                       pull_open := true |}]).
Proof.
  intros no w'. subst no w'.
  destruct (action_outcome context w)
    as [w1 (U & P & _)|body w0 (U & P & _)
        |body info' w0 w1 (U & P & _ & N) X (U1 & P1 & _)].
  - split; [exact U | left; exact P].
  - destruct (updateComment_keeps context body w0) as [-> ->].
    split; [exact U | left; exact P].
  - destruct (updateComment_keeps context body w1) as [-> ->].
    rewrite U1, P1. simpl. rewrite U, P, N.
    split; [reflexivity|]. right.
    exists (to_string (get_prop info' (u16 "title"))).
    split; [exact X | reflexivity].
Qed.

(** X12.  Whatever events the action runs on, one after the other, the
    number of comments of the bot on an issue never goes beyond one, or
    beyond what it was at the start if that was more. *)
Theorem bot_comments_stay_single events w no :
  (length (automation_comments no (run_all_ events w))
   <= Nat.max 1 (length (automation_comments no w)))%nat.
Proof.
  unfold run_all. revert w.
  induction events as [|e events IH]; intros w; cbn [fold_left]; [lia|].
  specialize (IH (snd (action_ e w))).
  pose proof (outcome_comments e w _ no (action_outcome e w)). lia.
Qed.

(** X13.  Whatever events the action runs on, one after the other, the
    number of open pull requests of the bot for an issue never goes beyond
    one, or beyond what it was at the start if that was more. *)
Theorem bot_pull_requests_stay_single events w no :
  (length (automation_pulls no (run_all_ events w))
   <= Nat.max 1 (length (automation_pulls no w)))%nat.
Proof.
  unfold run_all. revert w.
  induction events as [|e events IH]; intros w; cbn [fold_left]; [lia|].
  specialize (IH (snd (action_ e w))).
  pose proof (outcome_pulls e w _ no (action_outcome e w)). lia.
Qed.

(** *** The comments of others *)

Lemma NoDup_map_eq (T U : Type) (f : T -> U) l a b :
  NoDup (map f l) -> In a l -> In b l -> f a = f b -> a = b.
Proof.
  induction l as [|x l IH]; simpl; [contradiction|].
  intros N Ia Ib E. inversion N as [|? ? Nx Nl]; subst.
  destruct Ia as [->|Ia], Ib as [->|Ib]; auto.
  - exfalso. apply Nx. rewrite E. apply in_map. exact Ib.
  - exfalso. apply Nx. rewrite <- E. apply in_map. exact Ia.
Qed.

Lemma set_body_id id body c : comment_id (set_body id body c) = comment_id c.
Proof. unfold set_body. destruct (Z.eqb _ _); reflexivity. Qed.

Lemma set_body_other id body c : comment_id c <> id -> set_body id body c = c.
Proof.
  unfold set_body. intros N.
  destruct (Z.eqb_spec (comment_id c) id); [contradiction | reflexivity].
Qed.

Lemma set_body_twice id body c :
  set_body id body (set_body id body c) = set_body id body c.
Proof.
  unfold set_body. destruct (Z.eqb_spec (comment_id c) id) as [E|N]; simpl.
  - rewrite E, Z.eqb_refl. reflexivity.
  - destruct (Z.eqb_spec (comment_id c) id); [contradiction | reflexivity].
Qed.

Lemma automation_comments_In no w c :
  In c (automation_comments no w) ->
  In c (comments w) /\ comment_login c = bot /\ comment_issue c = no.
Proof.
  unfold automation_comments. intros H.
  apply filter_In in H as [H L]. apply filter_In in H as [H I].
  apply jseqb_eq in L. apply Z.eqb_eq in I. auto.
Qed.

Lemma unique_ids_same w w' :
  same_repository w w' -> unique_ids w -> unique_ids w'.
Proof.
  intros (_ & _ & C & N) [D F]. unfold unique_ids. rewrite C, N.
  split; assumption.
Qed.

Lemma updateComment_others context body w :
  unique_ids w ->
  unique_ids (snd (updateComment context body w))
  /\ forall c, In c (comments w) -> comment_login c <> bot ->
               In c (comments (snd (updateComment context body w))).
Proof.
  intros [D F].
  destruct (automation_comments (issue_number context) w) as [|c0 l] eqn:A.
  - rewrite (updateComment_missing _ body _ A). unfold unique_ids. simpl.
    split; [split|].
    + rewrite map_app. apply NoDup_app; [exact D | repeat constructor; auto|].
      intros a Ia [<-|[]]. apply in_map_iff in Ia as (c & E & Ic).
      rewrite Forall_forall in F. specialize (F c Ic). simpl in E. lia.
    + apply Forall_app. split.
      * eapply Forall_impl; [|exact F]. intros c H. simpl in H. lia.
      * repeat constructor. simpl. lia.
    + intros c Ic _. apply in_or_app. left. exact Ic.
  - rewrite (updateComment_found _ body _ _ _ A). unfold unique_ids. simpl.
    assert (I0 : In c0 (automation_comments (issue_number context) w))
      by (rewrite A; left; reflexivity).
    apply automation_comments_In in I0 as (I0 & L0 & _).
    split; [split|].
    + rewrite map_map.
      rewrite (map_ext _ comment_id (fun c => set_body_id _ _ c)). exact D.
    + apply Forall_map. eapply Forall_impl; [|exact F].
      intros c H. rewrite set_body_id. exact H.
    + intros c Ic Nc.
      rewrite <- (set_body_other (comment_id c0) body c).
      * apply in_map. exact Ic.
      * intros E. apply Nc.
        rewrite (NoDup_map_eq _ _ comment_id _ c c0 D Ic I0 E). exact L0.
Qed.

Lemma outcome_others context w w' :
  outcome context w w' -> unique_ids w ->
  unique_ids w'
  /\ forall c, In c (comments w) -> comment_login c <> bot ->
               In c (comments w').
Proof.
  intros [w1 S|body w0 S|body info' w0 w1 S X S1] U.
  - split; [exact (unique_ids_same _ _ S U)|].
    destruct S as (_ & _ & -> & _). auto.
  - destruct (updateComment_others context body w0 (unique_ids_same _ _ S U))
      as [U' K].
    split; [exact U'|]. destruct S as (_ & _ & C & _).
    rewrite C in K. exact K.
  - assert (U1 : unique_ids w1).
    { apply (unique_ids_same _ _ S1).
      destruct (unique_ids_same _ _ S U) as [D F].
      split; simpl; [exact D|].
      eapply Forall_impl; [|exact F]. intros c H. simpl in H. lia. }
    destruct (updateComment_others context body w1 U1) as [U' K].
    split; [exact U'|]. destruct S1 as (_ & _ & C1 & _).
    destruct S as (_ & _ & C & _).
    rewrite C1 in K. simpl in K. rewrite C in K. exact K.
Qed.

(** X14.  In a repository whose comments have distinct identifiers below
    the next number, whatever events the action runs on, every comment
    that the bot did not write stays as it is: the action edits and adds
    comments of the bot only, and removes none.  The identifiers stay
    distinct. *)
Theorem comments_of_others_are_kept events w :
  unique_ids w ->
  unique_ids (run_all_ events w)
  /\ forall c, In c (comments w) -> comment_login c <> bot ->
               In c (comments (run_all_ events w)).
Proof.
  unfold run_all. revert w.
  induction events as [|e events IH]; intros w U; cbn [fold_left];
    [split; auto|].
  destruct (outcome_others e w _ (action_outcome e w) U) as [U' K].
  destruct (IH _ U') as [U'' K'].
  split; [exact U''|]. intros c Ic Nc. apply K'; [apply K|]; assumption.
Qed.

(** X15.  Posting the same body a second time changes no comment: when no
    comment has the next number as its identifier, the comments after two
    runs of the notifier are those after one.  The second run is always an
    update, never a creation. *)
Theorem notifier_is_idempotent context body w :
  ~ In (next_number w) (map comment_id (comments w)) ->
  let w1 := snd (updateComment context body w) in
  let w2 := snd (updateComment context body w1) in
  comments w2 = comments w1
  /\ exists id,
       calls w2 = calls w1 ++ [Call.IssuesListComments (issue_number context);
                               Call.IssuesUpdateComment id body].
Proof.
  intros N w1 w2.
  pose proof (automation_comments_after context body w) as After.
  fold w1 in After.
  destruct (automation_comments (issue_number context) w) as [|c l] eqn:A.
  - assert (E1 : comments w1
                 = comments w
                   ++ [{| comment_id := next_number w;
                          comment_issue := issue_number context;
                          comment_login := bot; comment_body := body |}]).
    { unfold w1. rewrite (updateComment_missing _ body _ A). reflexivity. }
    unfold w2. rewrite (updateComment_found _ body _ _ _ After).
    cbn [snd comments calls comment_id]. split; [|eexists; reflexivity].
    rewrite E1, map_app. f_equal.
    + rewrite <- (map_id (comments w)) at 2. apply map_ext_in.
      intros c Ic. apply set_body_other. intros E. apply N.
      rewrite <- E. apply in_map. exact Ic.
    + cbn [map]. unfold set_body. cbn [comment_id]. rewrite Z.eqb_refl.
      reflexivity.
  - assert (E1 : comments w1
                 = map (set_body (comment_id c) body) (comments w)).
    { unfold w1. rewrite (updateComment_found _ body _ _ _ A). reflexivity. }
    cbn [map] in After.
    unfold w2. rewrite (updateComment_found _ body _ _ _ After).
    cbn [snd comments calls]. split; [|eexists; reflexivity].
    rewrite set_body_id, E1, map_map. apply map_ext.
    intros x. apply set_body_twice.
Qed.

(** *** A second run *)

Lemma find_app_r (T : Type) (f : T -> bool) l x :
  f x = true -> find f (l ++ [x]) <> None.
Proof.
  intros H. induction l as [|y l IH]; simpl.
  - rewrite H. discriminate.
  - destruct (f y); [discriminate | exact IH].
Qed.

(** X16.  After a run that returns for an issue that passed the check,
    the repository has an open pull request of the bot for the issue; and
    the next run for that issue number, whatever its event, creates no
    pull request. *)
Theorem accepted_run_leaves_a_pull_request context issue w w' :
  accepted_ context issue ->
  action_ context w = (Ok tt, w') ->
  existing_pull (issue_number context) (filter pull_open (pulls w')) <> None
  /\ forall next,
       issue_number next = issue_number context ->
       exists new,
         calls (snd (action_ next w')) = calls w' ++ new
         /\ forall b h ti bd l, ~ In (Call.PullsCreate b h ti bd l) new.
Proof.
  intros [T I] R.
  assert (X : existing_pull (issue_number context)
                (filter pull_open (pulls w')) <> None).
  { rewrite (action_of_trigger _ _ _ _ _ _ _ _ _ _ T) in R.
    fold (parsed_ issue) in R. rewrite I in R. cbv zeta in R.
    destruct (fill_author (p_info (parsed_ issue)) (issue_user_login issue)
                (found_user issue w)) as [info'|e] eqn:F.
    2:{ rewrite (publish_throws_author _ _ _ _ _ _ _ _ _ _ _ _ _ _ _ F) in R.
        discriminate R. }
    destruct (dir_of slug (issue_number context) info') as [dir|e] eqn:D.
    2:{ rewrite (publish_throws_dir _ _ _ _ _ _ _ _ _ _ _ _ _ _ _ _ F D) in R.
        discriminate R. }
    destruct (found_user issue w) as [u|] eqn:U; rewrite <- U in F.
    2:{ rewrite (publish_throws_user _ _ _ _ _ _ _ _ _ _ _ _ _ _ _ _ F D U)
          in R.
        discriminate R. }
    destruct (existing_pull (issue_number context)
                (filter pull_open (pulls w))) as [p|] eqn:E.
    - destruct (publish_updates safeDump slug playground toBadgeLink t
                  toISOString context issue (locale_of issue)
                  (p_info (parsed_ issue)) (p_question (parsed_ issue))
                  (p_template (parsed_ issue)) (p_tests (parsed_ issue))
                  w info' dir u p F D U E)
        as (body & c & w'' & R' & _ & _ & _ & P).
      rewrite R' in R. injection R as <-. rewrite P, E. discriminate.
    - destruct (publish_creates safeDump slug playground toBadgeLink t
                  toISOString context issue (locale_of issue)
                  (p_info (parsed_ issue)) (p_question (parsed_ issue))
                  (p_template (parsed_ issue)) (p_tests (parsed_ issue))
                  w info' dir u F D U E)
        as (body & c & w'' & R' & _ & _ & _ & P).
      rewrite R' in R. injection R as <-. rewrite P, filter_app.
      cbn [filter pull_open]. unfold existing_pull. apply find_app_r.
      cbn [pull_login pull_title]. rewrite jseqb_refl, pull_title_own.
      reflexivity. }
  split; [exact X|]. intros next N.
  destruct (action_shape safeLoad safeDump slug playground toBadgeLink t
              toISOString next w') as (new & C & S).
  exists new. split; [exact C|].
  apply (shape_no_create _ _ _ _ _ _ S). rewrite N. exact X.
Qed.

End Repository.

(** ** More examples *)

Section MoreExamples.

Local Notation "'demo_' f" :=
  (f Demo.safeLoad Demo.safeDump Demo.slug Demo.playground Demo.toBadgeLink
     Demo.t Demo.toISOString) (at level 10, f at level 9).

Lemma sample_pick_accepted :
  accepted Demo.safeLoad Sample.pick (Demo.issue_with Demo.pick_body).
Proof. repeat split. Qed.

(** X2 at the example: the four files of the commit for issue 42; the
    metadata has got octocat as its author. *)
Lemma committed_files_witness :
  calls (snd (Demo.action Sample.pick Demo.fresh))
  = calls Demo.fresh ++ Sample.pick_run
  /\ In (Call.PushCommit Sample.pick_commit) Sample.pick_run
  /\ push_files Sample.pick_commit
     = [(u16 "questions/42-easy-pick/info.yml",
         Demo.safeDump
           (JObj [(u16 "difficulty", JStr (u16 "easy"));
                  (u16 "title", JStr (u16 "Pick<T>"));
                  (u16 "author",
                   JObj [(u16 "github", JStr (u16 "octocat"));
                         (u16 "name", JStr (u16 "The Octocat"))])])
         ++ [10%N]);
        (u16 "questions/42-easy-pick/README.md",
         u16 "Implement Pick." ++ [10%N]);
        (u16 "questions/42-easy-pick/template.ts",
         u16 "type MyPick<T, K> = any" ++ [10%N]);
        (u16 "questions/42-easy-pick/test-cases.ts",
         u16 "type cases = []" ++ [10%N])]
  /\ NoDup (map fst (push_files Sample.pick_commit)).
Proof.
  assert (I : In (Call.PushCommit Sample.pick_commit) Sample.pick_run)
    by (vm_compute; auto 10).
  split; [reflexivity|]. split; [exact I|].
  destruct (demo_ committed_files Sample.pick Demo.fresh Sample.pick_run
              Sample.pick_commit eq_refl I)
    as (issue & dir & meta & info' & title & q & tm & ts & H).
  cbv zeta in H.
  destruct H as (_ & _ & _ & _ & _ & _ & _ & _ & _ & _ & _ & _ & _ & N & _).
  split; [vm_compute; reflexivity | exact N].
Defined.

(** X4 at the example: the metadata has a difficulty and no title. *)
Lemma untitled_submission_throws_witness :
  accepted Demo.safeLoad (Demo.context_with Sample.untitled_body)
    (Demo.issue_with Sample.untitled_body)
  /\ get_prop (p_info (parsed_of Demo.safeLoad
                         (Demo.issue_with Sample.untitled_body)))
       (u16 "title") = JUndefined
  /\ exists w',
       Demo.action (Demo.context_with Sample.untitled_body) Demo.fresh
       = (Throw TypeError, w')
       /\ comments w' = [] /\ pulls w' = [].
Proof.
  assert (A : accepted Demo.safeLoad (Demo.context_with Sample.untitled_body)
                (Demo.issue_with Sample.untitled_body)) by (repeat split).
  assert (T : get_prop (p_info (parsed_of Demo.safeLoad
                                  (Demo.issue_with Sample.untitled_body)))
                (u16 "title") = JUndefined) by reflexivity.
  split; [exact A|]. split; [exact T|].
  destruct (demo_ untitled_submission_throws
              (Demo.context_with Sample.untitled_body)
              (Demo.issue_with Sample.untitled_body) Demo.fresh A)
    as (w' & R & _ & C & P).
  - intros s E. rewrite T in E. discriminate E.
  - exists w'. split; [exact R|]. split; [exact C | exact P].
Defined.

(** X5 at the example: nothing but line feeds between the markers. *)
Lemma blank_question_is_invalid_witness :
  triggers (Demo.context_with Sample.unasked_body)
    (Demo.issue_with Sample.unasked_body)
  /\ exec (comment_range_at (u16 "question")) Sample.unasked_body
     = Some [10; 10]%N
  /\ Demo.action (Demo.context_with Sample.unasked_body) Demo.fresh
     = updateComment (Demo.context_with Sample.unasked_body)
         (issue_invalid_reply (Messages en)) Demo.fresh.
Proof.
  split; [repeat split|]. split; [reflexivity|].
  refine (proj2 (proj1 (demo_ blank_question_is_invalid
                          (Demo.context_with Sample.unasked_body)
                          (Demo.issue_with Sample.unasked_body) Demo.fresh
                          (conj eq_refl eq_refl)) _)).
  intros g E.
  change (exec (comment_range_at (u16 "question"))
            (or_empty (issue_body (Demo.issue_with Sample.unasked_body))))
    with (Some [10; 10]%N) in E.
  injection E as <-. reflexivity.
Defined.

(** X6 at an example. *)
Lemma getCodeBlock_reads_back_witness :
  getCodeBlock
    (u16 "intro " ++ (u16 "## " ++ u16 "Template") ++ [10%N]
     ++ (u16 "```" ++ u16 "ts") ++ u16 " type A = 1 " ++ u16 "```"
     ++ u16 " and ```ts more```")
    (u16 "Template") (u16 "ts")
  = Some (u16 "type A = 1").
Proof.
  exact (getCodeBlock_reads_back (u16 "intro ") [10%N] (u16 " type A = 1 ")
           (u16 " and ```ts more```") (u16 "Template") (u16 "ts")
           eq_refl eq_refl eq_refl eq_refl eq_refl).
Defined.

(** X7 at an example. *)
Lemma getCommentRange_reads_back_witness :
  getCommentRange
    (u16 "intro " ++ (u16 "<!--" ++ u16 "question" ++ u16 "-start-->")
     ++ u16 " What is it? "
     ++ (u16 "<!--" ++ u16 "question" ++ u16 "-end-->")
     ++ u16 " <!--question-end-->")
    (u16 "question")
  = Some (u16 "What is it?").
Proof.
  exact (getCommentRange_reads_back (u16 "intro ") (u16 " What is it? ")
           (u16 " <!--question-end-->") (u16 "question")
           eq_refl eq_refl eq_refl).
Defined.

(** X8 at the example: the template of [Demo.pick_body]. *)
Lemma extracted_text_is_clean_witness :
  getCodeBlock Demo.pick_body (u16 "Template") (u16 "ts")
  = Some (u16 "type MyPick<T, K> = any")
  /\ exists a b,
       Demo.pick_body = a ++ u16 "type MyPick<T, K> = any" ++ b.
Proof.
  split; [reflexivity|].
  exact (proj1 (proj1 (extracted_text_is_clean Demo.pick_body
                         (u16 "Template") (u16 "ts") (u16 "question")
                         (u16 "type MyPick<T, K> = any")
                         eq_refl eq_refl eq_refl) eq_refl)).
Defined.

(** X14 at the example: the comment of alice after three runs. *)
Lemma comments_of_others_are_kept_witness :
  unique_ids Sample.discussed
  /\ In Sample.alice_comment
       (comments
          (demo_ run_all
             [Sample.pick; Demo.context_with Demo.blank_template_body;
              Sample.pick]
             Sample.discussed)).
Proof.
  assert (U : unique_ids Sample.discussed).
  { split.
    - apply NoDup_cons; [intros [] | apply NoDup_nil].
    - apply Forall_cons; [reflexivity | apply Forall_nil]. }
  split; [exact U|].
  apply (proj2 (demo_ comments_of_others_are_kept
                  [Sample.pick; Demo.context_with Demo.blank_template_body;
                   Sample.pick]
                  Sample.discussed U)).
  - left. reflexivity.
  - discriminate.
Defined.

(** X15 at the example: two posts on the issue that alice commented. *)
Lemma notifier_is_idempotent_witness :
  ~ In (next_number Sample.discussed)
      (map comment_id (comments Sample.discussed))
  /\ comments (snd (updateComment Sample.pick (u16 "Done.")
                     (snd (updateComment Sample.pick (u16 "Done.")
                             Sample.discussed))))
     = comments (snd (updateComment Sample.pick (u16 "Done.")
                        Sample.discussed)).
Proof.
  assert (N : ~ In (next_number Sample.discussed)
                (map comment_id (comments Sample.discussed))).
  { simpl. intros [E|[]]. discriminate E. }
  split; [exact N|].
  exact (proj1 (notifier_is_idempotent Sample.pick (u16 "Done.")
                  Sample.discussed N)).
Defined.

(** X16 at the example: the run on issue 42 and the one after it. *)
Lemma accepted_run_leaves_a_pull_request_witness :
  accepted Demo.safeLoad Sample.pick (Demo.issue_with Demo.pick_body)
  /\ fst (Demo.action Sample.pick Demo.fresh) = Ok tt
  /\ existing_pull 42
       (filter pull_open (pulls (snd (Demo.action Sample.pick Demo.fresh))))
     <> None.
Proof.
  split; [exact sample_pick_accepted|]. split; [reflexivity|].
  refine (proj1 (demo_ accepted_run_leaves_a_pull_request Sample.pick
                   (Demo.issue_with Demo.pick_body) Demo.fresh
                   (snd (Demo.action Sample.pick Demo.fresh))
                   sample_pick_accepted _)).
  vm_compute. reflexivity.
Defined.

(** X17 at the example: the commit for issue 42 is signed by octocat. *)
Lemma commit_is_attributed_to_the_reporter_witness :
  calls (snd (Demo.action Sample.pick Demo.fresh))
  = calls Demo.fresh ++ Sample.pick_run
  /\ In (Call.PushCommit Sample.pick_commit) Sample.pick_run
  /\ push_head Sample.pick_commit = u16 "pulls/42"
  /\ pushed Sample.pick_run = [Sample.pick_commit].
Proof.
  assert (I : In (Call.PushCommit Sample.pick_commit) Sample.pick_run)
    by (vm_compute; auto 10).
  split; [reflexivity|]. split; [exact I|].
  destruct (demo_ commit_is_attributed_to_the_reporter Sample.pick Demo.fresh
              Sample.pick_run Sample.pick_commit eq_refl I)
    as (issue & u & _ & _ & _ & _ & _ & _ & H & O).
  split; [exact H | exact O].
Defined.

End MoreExamples.
